(** * dynalloc: a first-fit allocator over sbrk/brk

    Shallow embedding of [src/dynalloc.c] and the properties its
    specification states about it.

    Data layout.  The development fixes the LP64 ABI the allocator is
    built for (it sits directly on [sbrk]/[brk]): pointers and [size_t]
    are 64 bits wide, a pointer to a header takes 8 bytes and
    [sizeof(Header)] is 32 (three 8-byte words, one [char], seven bytes
    of padding).  Every [size_t] computation is written with its
    wrap-around modulo [2^64].

    Memory.  The heap is a store of header objects indexed by address (a
    [gmap Z Header.t]) next to a store of data bytes.  A header is read
    and written field by field, in the order of the C statements, so that
    two pointers naming the same header alias in the model as they do in
    the program.  A header is the unit of that store and data bytes live
    in a store of their own: two headers at different addresses are
    different objects and a byte copy rewrites no header field.  The
    statements below therefore ask that the headers they write either
    coincide or do not overlap in memory ([separate]), and that the
    bytes they copy lie clear of the headers they speak of. *)

From Stdlib Require Import ZArith Lia Bool List.
From stdpp Require Import base option gmap.

Local Open Scope Z_scope.

(** ** Machine constants *)

Definition word_modulus : Z := 2 ^ 64.

(** [size_t] and pointer arithmetic wrap around. *)
Definition wrap (x : Z) : Z := x mod word_modulus.

(** The value a [size_t] takes when converted to [intptr_t]. *)
Definition to_signed (x : Z) : Z :=
  if wrap x <? 2 ^ 63 then wrap x else wrap x - word_modulus.

Definition NULL : Z := 0.

(** [sizeof(header)] where [header : Header*]. *)
Definition sizeof_ptr : Z := 8.

(** [sizeof(Header)]. *)
Definition sizeof_Header : Z := 32.

Definition MIN_BLOCK_SIZE : Z := 32.

(** [(void* )-1], what [sbrk] returns when the request is denied. *)
Definition SBRK_FAILED : Z := wrap (-1).

(** ** The block header *)

Module Header.

Record t : Type := mk
  { next : Z;   (* struct Header *next *)
    prev : Z;   (* struct Header *prev *)
    size : Z;   (* size_t size *)
    free : Z    (* char free: non zero when the block is not in use *)
  }.

Definition set_next (v : Z) (h : t) : t := mk v (prev h) (size h) (free h).
Definition set_prev (v : Z) (h : t) : t := mk (next h) v (size h) (free h).
Definition set_size (v : Z) (h : t) : t := mk (next h) (prev h) v (free h).
Definition set_free (v : Z) (h : t) : t := mk (next h) (prev h) (size h) v.

(** Content of memory no header was ever written to. *)
Definition blank : t := mk 0 0 0 0.

End Header.

(** ** Program state *)

Record heap : Type := mkHeap
  { first : Z;                    (* Header* first *)
    hdrs : gmap Z Header.t;       (* header objects, by address *)
    bytes : gmap Z Z;             (* data bytes, by address *)
    brk_addr : Z;                 (* the program break *)
    brk_limit : Z                 (* the highest break the OS grants *)
  }.

Definition with_first (v : Z) (st : heap) : heap :=
  mkHeap v (hdrs st) (bytes st) (brk_addr st) (brk_limit st).
Definition with_hdrs (m : gmap Z Header.t) (st : heap) : heap :=
  mkHeap (first st) m (bytes st) (brk_addr st) (brk_limit st).
Definition with_bytes (m : gmap Z Z) (st : heap) : heap :=
  mkHeap (first st) (hdrs st) m (brk_addr st) (brk_limit st).
Definition with_brk (v : Z) (st : heap) : heap :=
  mkHeap (first st) (hdrs st) (bytes st) v (brk_limit st).

(** ** Outcomes and the program monad *)

Inductive fault : Type :=
| NullDeref                (* a field access through a null pointer *)
| BadAccess (addr : Z).    (* a field access outside the address space, or
                              a read of memory holding no header *)

Inductive outcome (A : Type) : Type :=
| Done (a : A) (st : heap)
| Crash (f : fault)
| OutOfFuel.
Arguments Done {A} a st.
Arguments Crash {A} f.
Arguments OutOfFuel {A}.

Definition M (A : Type) : Type := heap -> outcome A.

Definition ret {A} (a : A) : M A := fun st => Done a st.

Definition bind {A B} (m : M A) (k : A -> M B) : M B :=
  fun st =>
    match m st with
    | Done a st' => k a st'
    | Crash f => Crash f
    | OutOfFuel => OutOfFuel
    end.

Definition out_of_fuel {A} : M A := fun _ => OutOfFuel.

Notation "'let*' x ':=' e 'in' k" := (bind e (fun x => k))
  (at level 10, x name, e at level 100, k at level 200).
Notation "e ';;' k" := (bind e (fun _ => k))
  (at level 100, k at level 200, right associativity).

(** ** Field access *)

(** A [Header] object at [p] lies inside the address space. *)
Definition in_space (p : Z) : bool :=
  (0 <=? p) && (p + sizeof_Header <=? word_modulus).

(** [p->f] as an rvalue. *)
Definition rd (p : Z) (f : Header.t -> Z) : M Z :=
  fun st =>
    if p =? NULL then Crash NullDeref
    else if negb (in_space p) then Crash (BadAccess p)
    else match hdrs st !! p with
         | Some h => Done (f h) st
         | None => Crash (BadAccess p)
         end.

(** [p->f = v].  A store to memory that holds no header yet starts one
    there; the program writes the four fields of every header it builds
    before it reads any of them. *)
Definition store (p : Z) (upd : Header.t -> Header.t) (st : heap) : heap :=
  with_hdrs (<[p := upd (default Header.blank (hdrs st !! p))]> (hdrs st)) st.

Definition wr (p : Z) (upd : Header.t -> Header.t) : M unit :=
  fun st =>
    if p =? NULL then Crash NullDeref
    else if negb (in_space p) then Crash (BadAccess p)
    else Done tt (store p upd st).

Definition get_first : M Z := fun st => Done (first st) st.
Definition set_first (v : Z) : M unit := fun st => Done tt (with_first v st).

(** ** The Heap Region Manager *)

(** Modelled from the spec: [sbrk] of <unistd.h> is not part of the
    sources.  grow(n) "extends the heap boundary by n bytes; returns the
    previous boundary address (start of the new region) or a failure
    indicator if the OS denies the request".  The increment is an
    [intptr_t]; the OS grants a break up to [brk_limit]. *)
Definition sbrk (incr : Z) : M Z :=
  fun st =>
    let target := brk_addr st + to_signed incr in
    if (target <? 0) || (brk_limit st <? target)
    then Done SBRK_FAILED st
    else Done (brk_addr st) (with_brk target st).

(** Modelled from the spec: [brk] of <unistd.h> is not part of the
    sources.  shrinkTo(address) "moves the heap boundary back to
    address, releasing everything above it".  The program ignores the
    status [brk] returns. *)
Definition brk (addr : Z) : M unit :=
  fun st =>
    if brk_limit st <? addr then Done tt st else Done tt (with_brk addr st).

(** ** Block Directory primitives *)

(** [merge_blocks], lines 35-43.  [min] and [max] are the macros of
    lines 6-7. *)
Definition merge_blocks (head1 head2 : Z) : M Z :=
  let first_header := if head1 >? head2 then head2 else head1 in
  let second_header := if head1 >? head2 then head1 else head2 in
  let* s1 := rd head1 Header.size in
  let* s2 := rd head2 Header.size in
  wr first_header (Header.set_size (wrap (sizeof_Header + s1 + s2))) ;;
  let* n := rd second_header Header.next in
  wr first_header (Header.set_next n) ;;
  let* n' := rd second_header Header.next in
  if n' =? NULL then ret first_header
  else
    let* succ := rd second_header Header.next in
    wr succ (Header.set_prev first_header) ;;
    ret first_header.

(** [split_block], lines 52-64.  Line 53 subtracts [sizeof(header)], the
    size of the pointer. *)
Definition split_block (header new_size : Z) : M Z :=
  let* s := rd header Header.size in
  let new_block_size := wrap (s - new_size - sizeof_ptr) in
  if new_block_size <? MIN_BLOCK_SIZE then ret NULL
  else
    let new_header := wrap (header + sizeof_Header + new_size) in
    wr new_header (Header.set_prev header) ;;
    let* n := rd header Header.next in
    wr new_header (Header.set_next n) ;;
    wr new_header (Header.set_size new_block_size) ;;
    wr new_header (Header.set_free 1) ;;
    let* succ := rd header Header.next in
    wr succ (Header.set_prev new_header) ;;
    wr header (Header.set_next new_header) ;;
    ret new_header.

(** ** Allocator *)

(** The inner loop of [malloc], lines 89-94: merge the run of free
    blocks that starts at [curr]. *)
Fixpoint coalesce (fuel : nat) (curr : Z) : M Z :=
  match fuel with
  | O => out_of_fuel
  | S fuel' =>
      let* f := rd curr Header.free in
      if f =? 0 then ret curr
      else
        let* n := rd curr Header.next in
        if n =? NULL then ret curr
        else
          let* n1 := rd curr Header.next in
          let* nf := rd n1 Header.free in
          if nf =? 0 then ret curr
          else
            let* n2 := rd curr Header.next in
            let* merged := merge_blocks curr n2 in
            coalesce fuel' merged
  end.

(** Lines 104-112: no fit, extend the heap.  The result of [sbrk] is
    used as it comes. *)
Definition extend_heap (size last : Z) : M Z :=
  let* new_block := sbrk (wrap (size + sizeof_Header)) in
  wr new_block (Header.set_prev last) ;;
  wr new_block (Header.set_next NULL) ;;
  wr new_block (Header.set_size size) ;;
  wr new_block (Header.set_free 0) ;;
  let* f := get_first in
  (if f =? NULL then set_first new_block else ret tt) ;;
  ret (wrap (new_block + sizeof_Header)).

(** The outer loop of [malloc], lines 88-102, followed by the growth of
    the heap.  [inner] is the fuel of each run of [coalesce]. *)
Fixpoint first_fit (inner fuel : nat) (size curr last : Z) : M Z :=
  match fuel with
  | O => out_of_fuel
  | S fuel' =>
      if curr =? NULL then extend_heap size last
      else
        let* curr := coalesce inner curr in
        let* f := rd curr Header.free in
        let* fits :=
          (if f =? 0 then ret false
           else let* s := rd curr Header.size in ret (size <=? s)) in
        if fits : bool then
          split_block curr size ;;
          wr curr (Header.set_free 0) ;;
          ret (wrap (curr + sizeof_Header))
        else
          let* n := rd curr Header.next in
          first_fit inner fuel' size n curr
  end.

(** Lines 82-83: the size [malloc] works with. *)
Definition clamp (size : Z) : Z :=
  if size <? MIN_BLOCK_SIZE then MIN_BLOCK_SIZE else size.

(** [malloc], lines 79-113. *)
Definition malloc (fuel : nat) (size : Z) : M Z :=
  let size := clamp size in
  let* curr := get_first in
  first_fit fuel fuel size curr NULL.

(** ** Deallocator *)

(** Lines 128-133 and 154-159: walk back over the trailing free run. *)
Fixpoint trailing_run (fuel : nat) (curr : Z) : M Z :=
  match fuel with
  | O => out_of_fuel
  | S fuel' =>
      let* f := get_first in
      if curr =? f then ret curr
      else
        let* p := rd curr Header.prev in
        let* pf := rd p Header.free in
        if pf =? 0 then ret curr
        else
          let* p' := rd curr Header.prev in
          trailing_run fuel' p'
  end.

(** Lines 126-137 and 153-163: the block is the last one, lower the
    break to the start of the trailing free run. *)
Definition release_tail (fuel : nat) (header : Z) : M unit :=
  let* n := rd header Header.next in
  if n =? NULL then
    let* curr := trailing_run fuel header in
    let* f := get_first in
    (if curr =? f then set_first NULL else ret tt) ;;
    brk curr
  else ret tt.

(** [free], lines 120-138. *)
Definition free (fuel : nat) (address : Z) : M unit :=
  if address =? NULL then ret tt
  else
    let header := wrap (address - sizeof_Header) in
    wr header (Header.set_free 1) ;;
    release_tail fuel header.

(** The scan of [free_with_caution], lines 150-167. *)
Fixpoint find_header (inner fuel : nat) (header curr : Z) : M unit :=
  match fuel with
  | O => out_of_fuel
  | S fuel' =>
      if curr =? NULL then ret tt
      else if curr =? header then
        wr curr (Header.set_free 1) ;;
        release_tail inner curr
      else
        let* n := rd curr Header.next in
        find_header inner fuel' header n
  end.

(** [free_with_caution], lines 145-168. *)
Definition free_with_caution (fuel : nat) (address : Z) : M unit :=
  let* curr := get_first in
  if address =? NULL then ret tt
  else
    let header := wrap (address - sizeof_Header) in
    find_header fuel fuel header curr.

(** ** Reallocator *)

(** A read of a data byte; memory never written reads as zero. *)
Definition byte_at (m : gmap Z Z) (a : Z) : Z := default 0 (m !! a).

(** The loop of [copy_data], lines 177-178, for [n] more iterations from
    index [i]. *)
Fixpoint copy_bytes (n : nat) (i src_block dst_block : Z) (m : gmap Z Z)
  : gmap Z Z :=
  match n with
  | O => m
  | S n' =>
      copy_bytes n' (i + 1) src_block dst_block
        (<[wrap (dst_block + i) := byte_at m (wrap (src_block + i))]> m)
  end.

(** [copy_data], lines 173-179.  The loop test reads [src->size] at every
    iteration; the stores of the loop go to data bytes, so it reads the
    same value each time and the loop runs [src->size] times. *)
Definition copy_data (src dst : Z) : M unit :=
  let src_block := wrap (src + sizeof_Header) in
  let dst_block := wrap (dst + sizeof_Header) in
  let* s := rd src Header.size in
  fun st =>
    Done tt (with_bytes (copy_bytes (Z.to_nat s) 0 src_block dst_block (bytes st)) st).

(** The loop of lines 203-204. *)
Fixpoint absorb (fuel : nat) (header : Z) : M unit :=
  match fuel with
  | O => out_of_fuel
  | S fuel' =>
      let* n := rd header Header.next in
      let* nn := rd n Header.next in
      let* nnf := rd nn Header.free in
      if nnf =? 0 then ret tt
      else
        let* a := rd header Header.next in
        let* a' := rd header Header.next in
        let* b := rd a' Header.next in
        merge_blocks a b ;;
        absorb fuel' header
  end.

(** Lines 212-218: allocate, copy, free. *)
Definition realloc_fallback (fuel : nat) (address size header : Z) : M Z :=
  let* new_address := malloc fuel size in
  if new_address =? NULL then ret NULL
  else
    copy_data header (wrap (new_address - sizeof_Header)) ;;
    free fuel address ;;
    ret new_address.

(** [realloc], lines 184-220.  [size_diff] is a [size_t]: the test of
    line 189 compares an unsigned value with 0. *)
Definition realloc (fuel : nat) (address size : Z) : M Z :=
  if address =? NULL then ret NULL
  else
    let header := wrap (address - sizeof_Header) in
    let* hs := rd header Header.size in
    let size_diff := wrap (size - hs) in
    if size_diff <? 0 then
      split_block header size ;;
      ret address
    else
      let* n := rd header Header.next in
      if n =? NULL then
        sbrk size_diff ;;
        wr header (Header.set_size size) ;;
        ret address
      else
        let* n1 := rd header Header.next in
        let* nf := rd n1 Header.free in
        if nf =? 0 then realloc_fallback fuel address size header
        else
          absorb fuel header ;;
          let* n2 := rd header Header.next in
          let* ns := rd n2 Header.size in
          if size_diff <=? ns then
            let* n3 := rd header Header.next in
            split_block n3 size_diff ;;
            let* n4 := rd header Header.next in
            merge_blocks header n4 ;;
            ret address
          else realloc_fallback fuel address size header.

(** ** The Block Directory as a list *)

(** [chain st p l]: following the [next] links from [p] visits exactly
    the headers [l], each present in memory, and ends on a null link.
    The headers of [l] are the tracked ones when [p] is [first st]. *)
Inductive chain (st : heap) : Z -> list Z -> Prop :=
| chain_end : chain st NULL []
| chain_link p h l :
    p <> NULL ->
    in_space p = true ->
    hdrs st !! p = Some h ->
    chain st (Header.next h) l ->
    chain st p (p :: l).

(** The header objects at [p] and at [q] occupy disjoint memory. *)
Definition disjoint_headers (p q : Z) : Prop :=
  p + sizeof_Header <= q \/ q + sizeof_Header <= p.

(** [p] and [q] name the same header object or two that do not overlap. *)
Definition separate (p q : Z) : Prop :=
  p = q \/ disjoint_headers p q.

(** The value of [last] in [malloc] once the scan has walked over [l],
    starting with [last = d]. *)
Definition last_visited (l : list Z) (d : Z) : Z :=
  fold_left (fun _ p => p) l d.

(** Every header of [l] is present and in use. *)
Definition all_in_use (st : heap) (l : list Z) : Prop :=
  Forall (fun p => exists h, hdrs st !! p = Some h /\ Header.free h = 0) l.

(** [sbrk incr] is denied in [st]. *)
Definition denied (st : heap) (incr : Z) : Prop :=
  brk_addr st + to_signed incr < 0 \/ brk_limit st < brk_addr st + to_signed incr.

(** ** Sample heaps *)

(** The state the program starts in: no block, the break at 4096. *)
Definition heap_empty : heap := mkHeap NULL ∅ ∅ 4096 8192.

(** An empty directory, and an OS that grants no growth. *)
Definition heap_empty_full : heap := mkHeap NULL ∅ ∅ 4096 4096.

(** An empty directory, and an OS that grants 64 bytes. *)
Definition heap_empty_tight : heap := mkHeap NULL ∅ ∅ 4096 4160.

(** One block of 200 bytes in use: [heap_empty] after [malloc(200)]. *)
Definition heap_one : heap :=
  mkHeap 4096 {[4096 := Header.mk 0 0 200 0]} ∅ 4328 8192.

(** Two blocks in use: 200 bytes at 4096, then 32 bytes at 4328. *)
Definition two_blocks : gmap Z Header.t :=
  <[4096 := Header.mk 4328 0 200 0]> {[4328 := Header.mk 0 4096 32 0]}.
Definition heap_two : heap := mkHeap 4096 two_blocks ∅ 4392 8192.

(** The same two blocks when the OS grants no growth. *)
Definition heap_two_full : heap := mkHeap 4096 two_blocks ∅ 4392 4392.

(** One block of 32 bytes in use and an OS that grants no further growth:
    [heap_empty_tight] after [malloc(32)]. *)
Definition heap_one_full : heap :=
  mkHeap 4096 {[4096 := Header.mk 0 0 32 0]} ∅ 4160 4160.

(** A free block of 32 bytes at 4096 followed by a block in use at 4160. *)
Definition heap_exact_fit : heap :=
  mkHeap 4096
    (<[4096 := Header.mk 4160 0 32 1]> {[4160 := Header.mk 0 4096 32 0]})
    ∅ 4224 8192.

(** A block in use, a free block and a block in use, one after the
    other. *)
Definition heap_three : heap :=
  mkHeap 4096
    (<[4096 := Header.mk 4160 0 32 0]>
       (<[4160 := Header.mk 4256 4096 64 1]>
          {[4256 := Header.mk 0 4160 32 0]}))
    ∅ 4320 8192.

(** A single free block of 200 bytes, the last of the directory. *)
Definition heap_free_tail : heap :=
  mkHeap 4096 {[4096 := Header.mk 0 0 200 1]} ∅ 4328 8192.

(** A block in use followed by a free block that is the last one. *)
Definition heap_free_last : heap :=
  mkHeap 4096
    (<[4096 := Header.mk 4160 0 32 0]> {[4160 := Header.mk 0 4096 32 1]})
    ∅ 4224 8192.

(** ** Trailing free runs and call sequences *)




(** [p = malloc(size); free(p);] *)
Definition malloc_then_free (fuel : nat) (size : Z) : M Z :=
  let* p := malloc fuel size in
  free fuel p ;;
  ret p.

(** [p1 = malloc(size1); p2 = malloc(size2); free(p1);] *)
Definition two_mallocs_free_first (fuel : nat) (size1 size2 : Z) : M (Z * Z) :=
  let* p1 := malloc fuel size1 in
  let* p2 := malloc fuel size2 in
  free fuel p1 ;;
  ret (p1, p2).


(** A free block of 200 bytes at 4096 followed by a block in use. *)
Definition heap_free_first : heap :=
  mkHeap 4096
    (<[4096 := Header.mk 4328 0 200 1]> {[4328 := Header.mk 0 4096 32 0]})
    ∅ 4392 8192.

(** Two free blocks, of 32 and 64 bytes, followed by a block in use. *)
Definition heap_free_pair : heap :=
  mkHeap 4096
    (<[4096 := Header.mk 4160 0 32 1]>
       (<[4160 := Header.mk 4256 4096 64 1]>
          {[4256 := Header.mk 0 4160 32 0]}))
    ∅ 4320 8192.

(** * Reasoning about field accesses *)

Lemma wrap_range x : 0 <= wrap x < word_modulus.
Proof. unfold wrap, word_modulus. apply Z.mod_pos_bound. lia. Qed.

Lemma wrap_small x : 0 <= x < word_modulus -> wrap x = x.
Proof. intros H. unfold wrap. apply Z.mod_small. exact H. Qed.

Lemma wrap_negative x : - word_modulus <= x < 0 -> wrap x = word_modulus + x.
Proof.
  intros H. unfold wrap. symmetry.
  apply Z.mod_unique with (-1); unfold word_modulus in *; lia.
Qed.

Lemma size_diff_not_negative x : (wrap x <? 0) = false.
Proof. apply Z.ltb_ge. apply wrap_range. Qed.

Lemma in_space_true p :
  0 <= p -> p + sizeof_Header <= word_modulus -> in_space p = true.
Proof. intros. unfold in_space. apply andb_true_intro. split; lia. Qed.

Lemma in_space_SBRK_FAILED : in_space SBRK_FAILED = false.
Proof. reflexivity. Qed.

Lemma bind_rd {B} p f (k : Z -> M B) st h :
  p <> NULL -> in_space p = true -> hdrs st !! p = Some h ->
  bind (rd p f) k st = k (f h) st.
Proof.
  intros Hp Hs Hl. unfold bind, rd.
  destruct (Z.eqb_spec p NULL) as [->|_]; [done|].
  by rewrite Hs, Hl.
Qed.

Lemma bind_wr {B} p upd (k : unit -> M B) st :
  p <> NULL -> in_space p = true ->
  bind (wr p upd) k st = k tt (store p upd st).
Proof.
  intros Hp Hs. unfold bind, wr.
  destruct (Z.eqb_spec p NULL) as [->|_]; [done|].
  by rewrite Hs.
Qed.

Lemma bind_wr_null {B} upd (k : unit -> M B) st :
  bind (wr NULL upd) k st = Crash NullDeref.
Proof. reflexivity. Qed.

Lemma hdrs_store p upd st q :
  hdrs (store p upd st) !! q =
  if decide (p = q) then Some (upd (default Header.blank (hdrs st !! p)))
  else hdrs st !! q.
Proof. unfold store. simpl. apply lookup_insert. Qed.

Lemma hdrs_store_eq p upd st h :
  hdrs st !! p = Some h -> hdrs (store p upd st) !! p = Some (upd h).
Proof. intros H. rewrite hdrs_store, decide_True by done. by rewrite H. Qed.

Lemma hdrs_store_ne p upd st q :
  p <> q -> hdrs (store p upd st) !! q = hdrs st !! q.
Proof. intros H. by rewrite hdrs_store, decide_False. Qed.

Lemma disjoint_headers_ne p q : disjoint_headers p q -> p <> q.
Proof. unfold disjoint_headers, sizeof_Header. lia. Qed.

(** Run the read at the head of the goal on the header [h], known to be
    at the address read, possibly under stores to other addresses. *)
Ltac read_header h :=
  rewrite (bind_rd _ _ _ _ h)
    by first [ done | by rewrite ?hdrs_store_ne by done | by apply hdrs_store_eq ].

(** Decide the [=?] test on [x] from the hypothesis [H : x <> _]. *)
Ltac test_false H :=
  let E := fresh "E" in
  pose proof H as E; apply Z.eqb_neq in E; rewrite E; clear E.

(** * The directory as a list *)

Lemma chain_inv_nil st p : chain st p [] -> p = NULL.
Proof. by inversion 1. Qed.

Lemma chain_inv_cons st p q l :
  chain st p (q :: l) ->
  p = q /\ p <> NULL /\ in_space p = true /\
  exists h, hdrs st !! p = Some h /\ chain st (Header.next h) l.
Proof. inversion 1; subst. eauto 10. Qed.

Lemma chain_same_hdrs st1 st2 p l :
  hdrs st1 = hdrs st2 -> chain st1 p l -> chain st2 p l.
Proof.
  intros Heq Hc. induction Hc as [|p h l Hp Hsp Hlk Hc IH].
  - apply chain_end.
  - apply chain_link with h; try done. by rewrite <- Heq.
Qed.

Lemma all_in_use_same_hdrs st1 st2 l :
  hdrs st1 = hdrs st2 -> all_in_use st1 l -> all_in_use st2 l.
Proof. unfold all_in_use. by intros ->. Qed.

(** The list ends where the scan stops: the last header visited has a
    null [next]. *)
Lemma chain_last_visited st :
  forall l p d,
    chain st p l -> l <> [] ->
    exists h, hdrs st !! last_visited l d = Some h /\ Header.next h = NULL.
Proof.
  induction l as [|q l IH]; intros p d Hc Hne; [done|].
  apply chain_inv_cons in Hc as (-> & Hq & Hsp & h & Hh & Hc).
  destruct l as [|r l].
  - apply chain_inv_nil in Hc. simpl. eauto.
  - change (last_visited (q :: r :: l) d) with (last_visited (r :: l) q).
    by apply IH with (Header.next h).
Qed.

Lemma chain_nonempty_first st l :
  chain st (first st) l -> l <> [] -> first st <> NULL.
Proof.
  intros Hc Hne. destruct l as [|q l]; [done|].
  by apply chain_inv_cons in Hc as (_ & ? & _).
Qed.

Lemma heap_one_by_malloc : malloc 1 200 heap_empty = Done 4128 heap_one.
Proof. vm_compute. reflexivity. Qed.

Lemma heap_one_full_by_malloc :
  malloc 1 32 heap_empty_tight = Done 4128 heap_one_full.
Proof. vm_compute. reflexivity. Qed.

Lemma heap_one_chain : chain heap_one (first heap_one) [4096].
Proof.
  apply chain_link with (Header.mk 0 0 200 0); try done.
  apply chain_end.
Qed.

Lemma heap_one_in_use : all_in_use heap_one [4096].
Proof.
  apply Forall_cons_2; [|apply Forall_nil_2].
  by exists (Header.mk 0 0 200 0).
Qed.

Lemma heap_two_chain : chain heap_two (first heap_two) [4096; 4328].
Proof.
  apply chain_link with (Header.mk 4328 0 200 0); try done.
  apply chain_link with (Header.mk 0 4096 32 0); try done.
  apply chain_end.
Qed.

Lemma heap_two_in_use : all_in_use heap_two [4096; 4328].
Proof.
  repeat apply Forall_cons_2; [| |apply Forall_nil_2].
  - by exists (Header.mk 4328 0 200 0).
  - by exists (Header.mk 0 4096 32 0).
Qed.

Lemma heap_two_full_chain :
  chain heap_two_full (first heap_two_full) [4096; 4328].
Proof. by apply (chain_same_hdrs heap_two), heap_two_chain. Qed.

Lemma heap_two_full_in_use : all_in_use heap_two_full [4096; 4328].
Proof. by apply (all_in_use_same_hdrs heap_two), heap_two_in_use. Qed.

(** * merge_blocks *)

(** C6.  When [b] is the successor of [a] in the list, lies right after
    [a]'s data in memory and is free, [merge_blocks a b] returns [a] with
    [a.size = sizeof(Header) + a.size + b.size] (the sum does not wrap)
    and [a.next = b.next]; the successor of [b], when there is one, gets
    [prev = a]; the free flag of [a] keeps its value, whatever it is; no
    header clear of [a] and of that successor, and nothing else of the
    state, changes. *)
Theorem C6_merge_blocks_effect (st : heap) (a b : Z) (ha hb : Header.t) :
  hdrs st !! a = Some ha ->
  hdrs st !! b = Some hb ->
  0 < a ->
  0 <= Header.size ha ->
  0 <= Header.size hb ->
  Header.next ha = b ->
  b = a + sizeof_Header + Header.size ha ->
  b + sizeof_Header + Header.size hb <= word_modulus ->
  Header.free hb <> 0 ->
  (Header.next hb <> NULL ->
   in_space (Header.next hb) = true /\
   separate (Header.next hb) a /\ separate (Header.next hb) b) ->
  exists st' ha',
    merge_blocks a b st = Done a st' /\
    hdrs st' !! a = Some ha' /\
    Header.size ha' = sizeof_Header + Header.size ha + Header.size hb /\
    Header.next ha' = Header.next hb /\
    Header.free ha' = Header.free ha /\
    (Header.next hb <> NULL ->
     exists hs, hdrs st' !! Header.next hb = Some hs /\ Header.prev hs = a) /\
    (forall p,
       disjoint_headers p a -> disjoint_headers p (Header.next hb) ->
       hdrs st' !! p = hdrs st !! p) /\
    first st' = first st /\ bytes st' = bytes st /\ brk_addr st' = brk_addr st.
Proof.
  intros Ha Hb Hpos Hsa Hsb Hadj Hphys Hfit Hfree Hsucc.
  assert (Hab : a <> b) by (unfold sizeof_Header in *; lia).
  assert (Ha0 : a <> NULL) by (unfold NULL; lia).
  assert (Hb0 : b <> NULL) by (unfold NULL, sizeof_Header in *; lia).
  assert (Hsa' : in_space a = true)
    by (apply in_space_true; unfold sizeof_Header in *; lia).
  assert (Hsb' : in_space b = true)
    by (apply in_space_true; unfold sizeof_Header in *; lia).
  unfold merge_blocks.
  replace (a >? b) with false
    by (symmetry; rewrite Z.gtb_ltb; apply Z.ltb_ge; unfold sizeof_Header in *; lia).
  rewrite (bind_rd a _ _ st ha), (bind_rd b _ _ st hb) by done.
  rewrite bind_wr by done.
  set (st1 := store a _ st).
  assert (Hb1 : hdrs st1 !! b = Some hb) by (subst st1; by rewrite hdrs_store_ne).
  rewrite (bind_rd b _ _ st1 hb) by done.
  rewrite bind_wr by done.
  set (st2 := store a _ st1).
  assert (Hb2 : hdrs st2 !! b = Some hb) by (subst st2; by rewrite hdrs_store_ne).
  assert (Ha2 : hdrs st2 !! a =
    Some (Header.mk (Header.next hb) (Header.prev ha)
            (sizeof_Header + Header.size ha + Header.size hb) (Header.free ha))).
  { subst st2 st1. rewrite hdrs_store, decide_True by done. f_equal.
    rewrite hdrs_store, decide_True by done. rewrite Ha. simpl.
    unfold Header.set_next, Header.set_size; simpl. f_equal.
    apply wrap_small. unfold sizeof_Header, word_modulus in *. lia. }
  rewrite (bind_rd b _ _ st2 hb) by done.
  destruct (Z.eqb_spec (Header.next hb) NULL) as [Hn|Hn].
  - eexists st2, _. split; [done|]. split; [exact Ha2|].
    repeat split; try done.
    intros p Hp%disjoint_headers_ne _. subst st2 st1.
    by rewrite !hdrs_store_ne.
  - rewrite (bind_rd b _ _ st2 hb) by done.
    rewrite bind_wr by (done || by apply Hsucc).
    set (st3 := store (Header.next hb) _ st2).
    assert (Hsucc3 : exists hs,
      hdrs st3 !! Header.next hb = Some hs /\ Header.prev hs = a).
    { eexists. split; [subst st3; by rewrite hdrs_store, decide_True|done]. }
    assert (Hframe : forall p,
      disjoint_headers p a -> disjoint_headers p (Header.next hb) ->
      hdrs st3 !! p = hdrs st !! p).
    { intros p Hp%disjoint_headers_ne Hp'%disjoint_headers_ne.
      subst st3 st2 st1. by rewrite !hdrs_store_ne. }
    destruct (decide (Header.next hb = a)) as [Hc|Hc].
    + exists st3, (Header.mk (Header.next hb) a
            (sizeof_Header + Header.size ha + Header.size hb) (Header.free ha)).
      split; [done|]. split.
      { subst st3. rewrite hdrs_store, decide_True by done. f_equal.
        rewrite Hc, Ha2. simpl. unfold Header.set_prev; simpl. by rewrite Hc. }
      repeat split; done.
    + eexists st3, _. split; [done|]. split.
      { subst st3. rewrite hdrs_store_ne by done. exact Ha2. }
      repeat split; done.
Qed.

Lemma C6_merge_blocks_effect_witness :
  exists st' ha',
    merge_blocks 4096 4160 heap_three = Done 4096 st' /\
    hdrs st' !! 4096 = Some ha' /\
    Header.size ha' = 128 /\
    Header.next ha' = 4256 /\
    Header.free ha' = 0 /\
    exists hs, hdrs st' !! 4256 = Some hs /\ Header.prev hs = 4096.
Proof.
  destruct (C6_merge_blocks_effect heap_three 4096 4160
              (Header.mk 4160 0 32 0) (Header.mk 4256 4096 64 1))
    as (st' & ha' & Hrun & Hlk & Hsz & Hnx & Hfr & Hsucc & _);
    try reflexivity; try (vm_compute; congruence).
  { intros _. split; [reflexivity|].
    split; right; unfold disjoint_headers; vm_compute; right; congruence. }
  exists st', ha'.
  repeat split; try assumption.
  apply Hsucc. vm_compute. congruence.
Defined.

(** * split_block *)

(** When the wrapped difference of line 53 is below [MIN_BLOCK_SIZE],
    [split_block] returns [NULL] and writes nothing. *)
Lemma split_block_below_floor st h n hd :
  h <> NULL -> in_space h = true ->
  hdrs st !! h = Some hd ->
  wrap (Header.size hd - n - sizeof_ptr) < MIN_BLOCK_SIZE ->
  split_block h n st = Done NULL st.
Proof.
  intros Hh Hsp Hlk Hchk. unfold split_block.
  read_header hd.
  by apply Z.ltb_lt in Hchk as ->.
Qed.

(** The precondition the specification states for a split, with the size
    of a header as overhead, is enough for the test of line 54 to pass. *)
Lemma split_precondition_passes s n :
  0 <= n -> s < word_modulus ->
  MIN_BLOCK_SIZE <= s - n - sizeof_Header ->
  MIN_BLOCK_SIZE <= wrap (s - n - sizeof_ptr).
Proof.
  intros Hn Hs Hpre. rewrite wrap_small;
    unfold MIN_BLOCK_SIZE, sizeof_Header, sizeof_ptr, word_modulus in *; lia.
Qed.

(** The state [split_block] leaves when it goes through: the six stores
    of lines 57-62, in order. *)
Lemma split_block_runs st h n hd :
  let nbs := wrap (Header.size hd - n - sizeof_ptr) in
  let nh := wrap (h + sizeof_Header + n) in
  h <> NULL -> in_space h = true ->
  hdrs st !! h = Some hd ->
  MIN_BLOCK_SIZE <= nbs ->
  nh <> NULL -> in_space nh = true -> nh <> h ->
  Header.next hd <> NULL -> in_space (Header.next hd) = true ->
  split_block h n st =
  Done nh
    (store h (Header.set_next nh)
       (store (Header.next hd) (Header.set_prev nh)
          (store nh (Header.set_free 1)
             (store nh (Header.set_size nbs)
                (store nh (Header.set_next (Header.next hd))
                   (store nh (Header.set_prev h) st)))))).
Proof.
  intros nbs nh Hh Hsp Hlk Hchk Hnh Hnsp Hne Hsucc Hssp.
  unfold split_block.
  read_header hd.
  fold nbs. replace (nbs <? MIN_BLOCK_SIZE) with false
    by (symmetry; by apply Z.ltb_ge).
  fold nh.
  rewrite bind_wr by done. read_header hd.
  rewrite !bind_wr by done. read_header hd.
  rewrite !bind_wr by done.
  reflexivity.
Qed.

(** The header built by [split_block], also when it lands on the old
    successor. *)
Lemma split_block_new_header st h n hd :
  let nbs := wrap (Header.size hd - n - sizeof_ptr) in
  let nh := wrap (h + sizeof_Header + n) in
  h <> NULL -> in_space h = true ->
  hdrs st !! h = Some hd ->
  MIN_BLOCK_SIZE <= nbs ->
  nh <> NULL -> in_space nh = true -> nh <> h ->
  Header.next hd <> NULL -> in_space (Header.next hd) = true ->
  exists st' hn,
    split_block h n st = Done nh st' /\
    hdrs st' !! nh = Some hn /\
    Header.next hn = Header.next hd /\
    Header.size hn = nbs /\
    Header.free hn = 1.
Proof.
  intros nbs nh Hh Hsp Hlk Hchk Hnh Hnsp Hne Hsucc Hssp.
  rewrite (split_block_runs st h n hd) by done.
  fold nbs nh.
  set (st4 := store nh (Header.set_free 1) _).
  assert (H4 : hdrs st4 !! nh = Some (Header.mk (Header.next hd) h nbs 1)).
  { subst st4. rewrite !hdrs_store, !decide_True by done. reflexivity. }
  destruct (decide (Header.next hd = nh)) as [Heq|Hneq].
  - exists (store h (Header.set_next nh)
              (store (Header.next hd) (Header.set_prev nh) st4)),
           (Header.mk (Header.next hd) nh nbs 1).
    split; [done|]. split; [|done].
    rewrite hdrs_store_ne by done.
    rewrite hdrs_store, decide_True by done.
    rewrite Heq in H4 |- *. by rewrite H4.
  - exists (store h (Header.set_next nh)
              (store (Header.next hd) (Header.set_prev nh) st4)),
           (Header.mk (Header.next hd) h nbs 1).
    split; [done|]. split; [|done].
    by rewrite !hdrs_store_ne by done.
Qed.

(** C1.  What [split_block h n] does when the test of line 54 passes and
    [h] has a successor: the new header sits [n] bytes into the data of
    [h], is free, has [prev = h] and [next] the old successor, whose
    [prev] now names it; [h.next] names it; it is returned.  Its size is
    [h.size - n - sizeof(header)] with the size of a pointer, and
    [h.size] keeps its old value: no statement of the function writes
    it. *)
Theorem C1_split_block_keeps_size (st : heap) (h n : Z) (hd : Header.t) :
  let nbs := wrap (Header.size hd - n - sizeof_ptr) in
  let nh := wrap (h + sizeof_Header + n) in
  h <> NULL -> in_space h = true ->
  hdrs st !! h = Some hd ->
  MIN_BLOCK_SIZE <= nbs ->
  nh <> NULL -> in_space nh = true ->
  Header.next hd <> NULL -> in_space (Header.next hd) = true ->
  disjoint_headers nh h ->
  disjoint_headers (Header.next hd) h ->
  disjoint_headers (Header.next hd) nh ->
  exists st',
    split_block h n st = Done nh st' /\
    hdrs st' !! h =
      Some (Header.mk nh (Header.prev hd) (Header.size hd) (Header.free hd)) /\
    hdrs st' !! nh = Some (Header.mk (Header.next hd) h nbs 1) /\
    exists hs, hdrs st' !! Header.next hd = Some hs /\ Header.prev hs = nh.
Proof.
  intros nbs nh Hh Hsp Hlk Hchk Hnh Hnsp Hsucc Hssp
    Hne%disjoint_headers_ne Hsh%disjoint_headers_ne Hsn%disjoint_headers_ne.
  eexists. split; [by apply split_block_runs|].
  split; [|split].
  - rewrite hdrs_store, decide_True by done.
    rewrite !hdrs_store_ne by done. by rewrite Hlk.
  - rewrite !hdrs_store_ne by done.
    rewrite !hdrs_store, !decide_True by done. reflexivity.
  - eexists. split.
    + rewrite hdrs_store_ne by done.
      rewrite hdrs_store, decide_True by done. reflexivity.
    + reflexivity.
Qed.

Lemma C1_split_block_keeps_size_witness :
  exists st',
    split_block 4096 40 heap_two = Done 4168 st' /\
    hdrs st' !! 4096 = Some (Header.mk 4168 0 200 0) /\
    hdrs st' !! 4168 = Some (Header.mk 4328 4096 152 1) /\
    exists hs, hdrs st' !! 4328 = Some hs /\ Header.prev hs = 4168.
Proof.
  apply (C1_split_block_keeps_size heap_two 4096 40 (Header.mk 4328 0 200 0));
    try reflexivity;
    try (unfold disjoint_headers; vm_compute; right; congruence);
    vm_compute; congruence.
Defined.

(** C5.  The test of line 54 is made on an unsigned difference, with the
    size of a pointer.  On every block that fits the request with less
    than 8 bytes to spare, [h.size - n - 8] is negative, hence below
    [MIN_BLOCK_SIZE], yet it wraps to [2^64 + (h.size - n - 8)], the test
    passes and [split_block] builds and returns a free header of that
    size.  [malloc] makes that call on an exact fit: on a free block of 32
    bytes asked for 32 bytes, the header lands on the next block, which
    was in use.  On a block of 200 bytes asked for 150 bytes, the 50
    bytes left hold a header and 18 bytes, yet the test sees
    [200 - 150 - 8 = 42] and the block is split. *)
Theorem C5_split_block_wraps_below_floor :
  (forall st h n hd,
     let nh := wrap (h + sizeof_Header + n) in
     h <> NULL -> in_space h = true ->
     hdrs st !! h = Some hd ->
     0 <= n ->
     n <= Header.size hd < n + sizeof_ptr ->
     nh <> NULL -> in_space nh = true ->
     Header.next hd <> NULL -> in_space (Header.next hd) = true ->
     disjoint_headers nh h ->
     separate (Header.next hd) nh ->
     separate (Header.next hd) h ->
     Header.size hd - n - sizeof_ptr < MIN_BLOCK_SIZE /\
     exists st' hn,
       split_block h n st = Done nh st' /\
       hdrs st' !! nh = Some hn /\
       Header.size hn = word_modulus + (Header.size hd - n - sizeof_ptr) /\
       Header.free hn = 1) /\
  (exists st',
     malloc 2 32 heap_exact_fit = Done 4128 st' /\
     hdrs st' !! 4096 = Some (Header.mk 4160 0 32 0) /\
     hdrs st' !! 4160 = Some (Header.mk 4160 4160 (word_modulus - 8) 1)) /\
  (exists st',
     split_block 4096 150 heap_two = Done 4278 st' /\
     hdrs st' !! 4096 = Some (Header.mk 4278 0 200 0) /\
     hdrs st' !! 4278 = Some (Header.mk 4328 4096 42 1)).
Proof.
  split; [|split].
  - intros st h n hd nh Hh Hsp Hlk Hn Hfit Hnh Hnsp Hsucc Hssp
      Hne%disjoint_headers_ne _ _.
    assert (Hw : wrap (Header.size hd - n - sizeof_ptr) =
                 word_modulus + (Header.size hd - n - sizeof_ptr)).
    { apply wrap_negative. unfold sizeof_ptr, word_modulus in *. lia. }
    split; [unfold sizeof_ptr, MIN_BLOCK_SIZE in *; lia|].
    destruct (split_block_new_header st h n hd)
      as (st' & hn & Hrun & Hnew & _ & Hsz & Hfr); try done.
    { rewrite Hw. unfold sizeof_ptr, word_modulus, MIN_BLOCK_SIZE in *. lia. }
    exists st', hn. by rewrite <- Hw.
  - eexists. split; [vm_compute; reflexivity|].
    split; vm_compute; reflexivity.
  - eexists. split; [vm_compute; reflexivity|].
    split; vm_compute; reflexivity.
Qed.

Lemma C5_split_block_wraps_below_floor_witness :
  32 - 32 - sizeof_ptr < MIN_BLOCK_SIZE /\
  exists st' hn,
    split_block 4096 32 heap_exact_fit = Done 4160 st' /\
    hdrs st' !! 4160 = Some hn /\
    Header.size hn = word_modulus + (32 - 32 - sizeof_ptr) /\
    Header.free hn = 1.
Proof.
  destruct C5_split_block_wraps_below_floor as (Hwrap & _).
  apply (Hwrap heap_exact_fit 4096 32 (Header.mk 4160 0 32 1));
    try reflexivity;
    try (by left);
    try (right; unfold disjoint_headers; vm_compute; right; congruence);
    try (unfold disjoint_headers; vm_compute; right; congruence);
    vm_compute; try split; congruence.
Defined.

(** * The scan of malloc *)

Lemma coalesce_in_use st fuel p h :
  (0 < fuel)%nat ->
  p <> NULL -> in_space p = true ->
  hdrs st !! p = Some h ->
  Header.free h = 0 ->
  coalesce fuel p st = Done p st.
Proof.
  intros Hfuel Hp Hsp Hlk Hfree.
  destruct fuel as [|fuel]; [lia|]. cbn [coalesce].
  read_header h. by rewrite Hfree.
Qed.

Lemma coalesce_free_tail st fuel p h :
  (0 < fuel)%nat ->
  p <> NULL -> in_space p = true ->
  hdrs st !! p = Some h ->
  Header.next h = NULL ->
  coalesce fuel p st = Done p st.
Proof.
  intros Hfuel Hp Hsp Hlk Htail.
  destruct fuel as [|fuel]; [lia|]. cbn [coalesce].
  read_header h. destruct (Header.free h =? 0); [done|].
  read_header h. by rewrite Htail.
Qed.

(** One turn of the outer loop on a block in use: nothing is written and
    the scan moves to the next block. *)
Lemma first_fit_step_in_use st inner fuel size q h last :
  (0 < inner)%nat ->
  q <> NULL -> in_space q = true ->
  hdrs st !! q = Some h ->
  Header.free h = 0 ->
  first_fit inner (S fuel) size q last st =
  first_fit inner fuel size (Header.next h) q st.
Proof.
  intros Hinner Hq Hsp Hlk Hfree.
  cbn [first_fit]. test_false Hq.
  unfold bind at 1. rewrite (coalesce_in_use st inner q h) by done.
  read_header h. rewrite Hfree.
  change (0 =? 0) with true. cbv iota.
  unfold bind at 1. unfold ret at 1.
  by read_header h.
Qed.

(** Over a directory of blocks in use, the scan of [malloc] writes
    nothing and ends in the growth of the heap, with [last] the last
    block of the list. *)
Lemma first_fit_in_use st inner size l :
  (0 < inner)%nat ->
  forall curr last fuel,
    chain st curr l ->
    all_in_use st l ->
    (length l < fuel)%nat ->
    first_fit inner fuel size curr last st =
    extend_heap size (last_visited l last) st.
Proof.
  intros Hinner.
  induction l as [|q l IH]; intros curr last fuel Hc Hall Hlen.
  - apply chain_inv_nil in Hc as ->.
    destruct fuel as [|fuel]; [simpl in Hlen; lia|]. reflexivity.
  - apply chain_inv_cons in Hc as (-> & Hq & Hsp & h & Hh & Hc).
    apply Forall_cons in Hall as [(h' & Hh' & Hfree) Hall].
    assert (h' = h) as -> by congruence.
    destruct fuel as [|fuel]; [simpl in Hlen; lia|].
    rewrite (first_fit_step_in_use st inner fuel size q h) by done.
    apply IH; [done|done|simpl in Hlen; lia].
Qed.

(** Over a run [l] of blocks in use, the scan reaches the block that
    follows the run. *)
Lemma first_fit_skips_in_use st inner size l p rest :
  (0 < inner)%nat ->
  forall curr last fuel,
    chain st curr (l ++ p :: rest) ->
    all_in_use st l ->
    first_fit inner (length l + fuel) size curr last st =
    first_fit inner fuel size p (last_visited l last) st.
Proof.
  intros Hinner.
  induction l as [|q l IH]; intros curr last fuel Hc Hall.
  - by apply chain_inv_cons in Hc as (-> & _).
  - apply chain_inv_cons in Hc as (-> & Hq & Hsp & h & Hh & Hc).
    apply Forall_cons in Hall as [(h' & Hh' & Hfree) Hall].
    assert (h' = h) as -> by congruence.
    change (length (q :: l) + fuel)%nat with (S (length l + fuel)).
    rewrite (first_fit_step_in_use st inner _ size q h) by done.
    by apply IH.
Qed.

Lemma chain_app_inv st :
  forall l curr p rest,
    chain st curr (l ++ p :: rest) ->
    p <> NULL /\ in_space p = true /\
    exists h, hdrs st !! p = Some h /\ chain st (Header.next h) rest.
Proof.
  induction l as [|q l IH]; intros curr p rest Hc.
  - apply chain_inv_cons in Hc as (-> & Hp & Hsp & h & Hh & Hc). eauto.
  - apply chain_inv_cons in Hc as (-> & _ & _ & h & _ & Hc). eauto.
Qed.

Lemma malloc_in_use st fuel size l :
  chain st (first st) l ->
  all_in_use st l ->
  (length l < fuel)%nat ->
  malloc fuel size st = extend_heap (clamp size) (last_visited l NULL) st.
Proof.
  intros Hc Hall Hlen. unfold malloc, clamp.
  unfold bind at 1. unfold get_first.
  apply first_fit_in_use; [lia|done..].
Qed.

(** A store through [p] that keeps a null [next] null leaves [h] a tail. *)
Lemma store_keeps_tail p upd st h :
  (forall x, Header.next x = NULL -> Header.next (upd x) = NULL) ->
  (exists hd, hdrs st !! h = Some hd /\ Header.next hd = NULL) ->
  exists hd, hdrs (store p upd st) !! h = Some hd /\ Header.next hd = NULL.
Proof.
  intros Hupd (hd & Hh & Hn). rewrite hdrs_store.
  destruct (decide (p = h)) as [->|_].
  - rewrite Hh. simpl. eauto.
  - eauto.
Qed.

(** [split_block] on the last block of the list, when the test of line
    54 lets it through, stops on the store of line 61. *)
Lemma split_block_tail st h n hd :
  h <> NULL -> in_space h = true ->
  hdrs st !! h = Some hd ->
  Header.next hd = NULL ->
  MIN_BLOCK_SIZE <= wrap (Header.size hd - n - sizeof_ptr) ->
  wrap (h + sizeof_Header + n) <> NULL ->
  in_space (wrap (h + sizeof_Header + n)) = true ->
  split_block h n st = Crash NullDeref.
Proof.
  intros Hh Hsp Hlk Htail Hchk Hnh Hnsp.
  unfold split_block.
  read_header hd.
  replace (wrap (Header.size hd - n - sizeof_ptr) <? MIN_BLOCK_SIZE) with false
    by (symmetry; by apply Z.ltb_ge).
  set (nh := wrap (h + sizeof_Header + n)) in *.
  rewrite bind_wr by done.
  set (st1 := store nh _ st).
  assert (H1 : exists x, hdrs st1 !! h = Some x /\ Header.next x = NULL).
  { apply store_keeps_tail; [done|eauto]. }
  destruct H1 as (x1 & Hx1 & Hn1).
  read_header x1. rewrite Hn1.
  rewrite !bind_wr by done.
  set (st4 := store nh (Header.set_free 1) _).
  assert (H4 : exists x, hdrs st4 !! h = Some x /\ Header.next x = NULL).
  { repeat (apply store_keeps_tail; [done|]). eauto. }
  destruct H4 as (x4 & Hx4 & Hn4).
  read_header x4. rewrite Hn4.
  apply bind_wr_null.
Qed.

(** C9.  Once the test of line 54 passes, [split_block] stores through
    [header->next] without testing it: on a block with no successor the
    call ends in a null dereference and links nothing.  [malloc] makes
    that call when the blocks of the directory are in use except the
    last one, which is free and large enough. *)
Theorem C9_split_tail_null_deref :
  (forall st h n hd,
     h <> NULL -> in_space h = true ->
     hdrs st !! h = Some hd ->
     Header.next hd = NULL ->
     MIN_BLOCK_SIZE <= wrap (Header.size hd - n - sizeof_ptr) ->
     wrap (h + sizeof_Header + n) <> NULL ->
     in_space (wrap (h + sizeof_Header + n)) = true ->
     separate (wrap (h + sizeof_Header + n)) h ->
     split_block h n st = Crash NullDeref) /\
  (forall st fuel size l h hd,
     chain st (first st) (l ++ [h]) ->
     all_in_use st l ->
     (length l < fuel)%nat ->
     hdrs st !! h = Some hd ->
     Header.free hd <> 0 ->
     clamp size <= Header.size hd ->
     MIN_BLOCK_SIZE <= wrap (Header.size hd - clamp size - sizeof_ptr) ->
     wrap (h + sizeof_Header + clamp size) <> NULL ->
     in_space (wrap (h + sizeof_Header + clamp size)) = true ->
     separate (wrap (h + sizeof_Header + clamp size)) h ->
     malloc fuel size st = Crash NullDeref).
Proof.
  split; [intros; by apply split_block_tail with hd|].
  intros st fuel size l h hd Hc Hall Hlen Hlk Hfree Hfit Hchk Hnh Hnsp _.
  destruct (chain_app_inv st l _ h [] Hc) as (Hh & Hsp & hd' & Hlk' & Hend).
  assert (hd' = hd) as -> by congruence.
  apply chain_inv_nil in Hend as Htail.
  unfold malloc. fold (clamp size).
  unfold bind at 1. unfold get_first.
  replace fuel with (length l + S (fuel - length l - 1))%nat at 2 by lia.
  rewrite (first_fit_skips_in_use st fuel (clamp size) l h []) by (done || lia).
  cbn [first_fit]. test_false Hh.
  unfold bind at 1. rewrite (coalesce_free_tail st fuel h hd) by (done || lia).
  read_header hd. test_false Hfree.
  unfold bind at 1. read_header hd.
  unfold ret at 1.
  apply Z.leb_le in Hfit as ->.
  unfold bind at 1.
  by rewrite (split_block_tail st h (clamp size) hd).
Qed.

Lemma C9_split_tail_null_deref_witness :
  split_block 4096 40 heap_free_tail = Crash NullDeref /\
  malloc 1 40 heap_free_tail = Crash NullDeref /\
  malloc 2 32 heap_free_last = Crash NullDeref.
Proof.
  destruct C9_split_tail_null_deref as (Hsplit & Hmalloc).
  split; [|split].
  - apply Hsplit with (Header.mk 0 0 200 1);
      try reflexivity;
      try (right; unfold disjoint_headers; vm_compute; right; congruence);
      vm_compute; congruence.
  - apply (Hmalloc heap_free_tail 1%nat 40 [] 4096 (Header.mk 0 0 200 1));
      try reflexivity; try (simpl; lia);
      try (right; unfold disjoint_headers; vm_compute; right; congruence);
      try (vm_compute; congruence).
    + apply chain_link with (Header.mk 0 0 200 1); try done. apply chain_end.
    + apply Forall_nil_2.
  - apply (Hmalloc heap_free_last 2%nat 32 [4096] 4160 (Header.mk 0 4096 32 1));
      try reflexivity; try (simpl; lia);
      try (right; unfold disjoint_headers; vm_compute; right; congruence);
      try (vm_compute; congruence).
    + apply chain_link with (Header.mk 4160 0 32 0); try done.
      apply chain_link with (Header.mk 0 4096 32 1); try done.
      apply chain_end.
    + apply Forall_cons_2; [|apply Forall_nil_2].
      by exists (Header.mk 4160 0 32 0).
Defined.

(** * Growing the heap *)

(** When [sbrk] is denied, [extend_heap] stores through [(void* )-1]. *)
Lemma extend_heap_denied st size last :
  denied st (wrap (size + sizeof_Header)) ->
  extend_heap size last st = Crash (BadAccess SBRK_FAILED).
Proof.
  intros Hden. unfold extend_heap, bind at 1, sbrk.
  replace ((brk_addr st + to_signed (wrap (size + sizeof_Header)) <? 0)
           || (brk_limit st <? brk_addr st + to_signed (wrap (size + sizeof_Header))))
    with true.
  - reflexivity.
  - symmetry. apply orb_true_iff.
    destruct Hden; [left; by apply Z.ltb_lt|right; by apply Z.ltb_lt].
Qed.

(** When [sbrk] grants the request, [extend_heap] builds the new header
    at the old break and writes no other header; [first] is set when it
    was null. *)
Lemma extend_heap_granted st size last :
  let target := brk_addr st + to_signed (wrap (size + sizeof_Header)) in
  0 <= target <= brk_limit st ->
  brk_addr st <> NULL -> in_space (brk_addr st) = true ->
  exists st',
    extend_heap size last st = Done (wrap (brk_addr st + sizeof_Header)) st' /\
    hdrs st' !! brk_addr st = Some (Header.mk NULL last size 0) /\
    (forall p, p <> brk_addr st -> hdrs st' !! p = hdrs st !! p) /\
    first st' = (if first st =? NULL then brk_addr st else first st) /\
    brk_addr st' = target /\ bytes st' = bytes st.
Proof.
  intros target Hgr Hnb Hsp.
  unfold extend_heap, bind at 1, sbrk. fold target.
  replace ((target <? 0) || (brk_limit st <? target)) with false
    by (symmetry; apply orb_false_iff; split; apply Z.ltb_ge; lia).
  rewrite !bind_wr by done.
  unfold bind at 1, get_first. cbn [first store with_hdrs with_brk].
  destruct (first st =? NULL).
  - eexists. split; [reflexivity|].
    split; [|split; [|done]].
    + cbn [hdrs with_first]. rewrite !hdrs_store, !decide_True by done.
      reflexivity.
    + intros p Hp. cbn [hdrs with_first]. by rewrite !hdrs_store_ne.
  - eexists. split; [reflexivity|].
    split; [|split; [|done]].
    + rewrite !hdrs_store, !decide_True by done. reflexivity.
    + intros p Hp. by rewrite !hdrs_store_ne.
Qed.

(** C3.  When the scan of [malloc] runs over a directory of blocks in
    use and [sbrk] grants the growth, the new header is built at the old
    break, in use, with [prev] the previous tail, and it becomes [first]
    when the directory was empty.  No header clear of the new one is
    written: on a directory that was not empty the [next] of the previous
    tail stays null, and the new block cannot be reached from [first]. *)
Theorem C3_malloc_grow_leaves_tail_unlinked (st : heap) (fuel : nat)
    (size : Z) (l : list Z) :
  let tail := last_visited l NULL in
  let target := brk_addr st + to_signed (wrap (clamp size + sizeof_Header)) in
  chain st (first st) l ->
  all_in_use st l ->
  (length l < fuel)%nat ->
  0 <= target <= brk_limit st ->
  brk_addr st <> NULL -> in_space (brk_addr st) = true ->
  (l <> [] -> disjoint_headers tail (brk_addr st)) ->
  exists st',
    malloc fuel size st = Done (wrap (brk_addr st + sizeof_Header)) st' /\
    hdrs st' !! brk_addr st = Some (Header.mk NULL tail (clamp size) 0) /\
    (forall p, disjoint_headers p (brk_addr st) ->
       hdrs st' !! p = hdrs st !! p) /\
    (l = [] -> first st' = brk_addr st) /\
    (l <> [] ->
     first st' = first st /\
     exists ht, hdrs st' !! tail = Some ht /\ Header.next ht = NULL).
Proof.
  intros tail target Hc Hall Hlen Hgr Hnb Hsp Hnt.
  destruct (extend_heap_granted st (clamp size) tail)
    as (st' & Hrun & Hnew & Hframe & Hf & _); [done..|].
  exists st'.
  rewrite (malloc_in_use st fuel size l) by done.
  fold tail. do 2 (split; [done|]). split; [|split].
  - intros p Hp%disjoint_headers_ne. by apply Hframe.
  - intros ->. apply chain_inv_nil in Hc. by rewrite Hc in Hf.
  - intros Hne. split.
    + pose proof (chain_nonempty_first st l Hc Hne) as Hfirst.
      rewrite Hf. by test_false Hfirst.
    + destruct (chain_last_visited st l _ NULL Hc Hne) as (ht & Hht & Hnext).
      exists ht. fold tail in Hht.
      rewrite Hframe; [done|]. by apply disjoint_headers_ne, Hnt.
Qed.

Lemma C3_malloc_grow_leaves_tail_unlinked_witness :
  exists st',
    malloc 2 32 heap_one = Done 4360 st' /\
    hdrs st' !! 4328 = Some (Header.mk NULL 4096 32 0) /\
    hdrs st' !! 4096 = hdrs heap_one !! 4096 /\
    first st' = 4096 /\
    exists ht, hdrs st' !! 4096 = Some ht /\ Header.next ht = NULL.
Proof.
  destruct (C3_malloc_grow_leaves_tail_unlinked heap_one 2 32 [4096])
    as (st' & Hrun & Hnew & Hframe & _ & Hlist).
  - exact heap_one_chain.
  - exact heap_one_in_use.
  - simpl. lia.
  - vm_compute. split; congruence.
  - discriminate.
  - reflexivity.
  - intros _. left. vm_compute. congruence.
  - destruct Hlist as [Hfirst Htail]; [discriminate|].
    exists st'. repeat split; try assumption.
    apply Hframe. left. vm_compute. congruence.
Defined.

(** * The deallocator on null and on untracked addresses *)

(** The scan of [free_with_caution] over a directory that does not hold
    [header] reaches the end of the list and writes nothing. *)
Lemma find_header_untracked st inner header l :
  forall curr fuel,
    chain st curr l ->
    header ∉ l ->
    (length l < fuel)%nat ->
    find_header inner fuel header curr st = Done tt st.
Proof.
  induction l as [|q l IH]; intros curr fuel Hc Hnot Hlen.
  - apply chain_inv_nil in Hc as ->.
    destruct fuel as [|fuel]; [simpl in Hlen; lia|]. reflexivity.
  - apply chain_inv_cons in Hc as (-> & Hq & Hsp & h & Hh & Hc).
    destruct fuel as [|fuel]; [simpl in Hlen; lia|].
    cbn [find_header].
    destruct (Z.eqb_spec q NULL) as [|_]; [done|].
    destruct (Z.eqb_spec q header) as [->|_].
    { exfalso. apply Hnot. by left. }
    rewrite (bind_rd q _ _ st h) by done.
    apply IH; [done| |simpl in Hlen; lia].
    intros Hin. apply Hnot. by right.
Qed.

(** C7.  [free(NULL)] and [free_with_caution(NULL)] return at once, and
    [free_with_caution] on an address whose header is not one of the
    tracked ones returns with the state as it was: every header (links,
    sizes, free flags), [first], the data bytes and the break are
    unchanged. *)
Theorem C7_free_null_and_untracked :
  (forall fuel st, free fuel NULL st = Done tt st) /\
  (forall fuel st, free_with_caution fuel NULL st = Done tt st) /\
  (forall fuel st address l,
     chain st (first st) l ->
     wrap (address - sizeof_Header) ∉ l ->
     (length l < fuel)%nat ->
     free_with_caution fuel address st = Done tt st).
Proof.
  split; [reflexivity|]. split; [reflexivity|].
  intros fuel st address l Hc Hnot Hlen.
  unfold free_with_caution, bind, get_first.
  destruct (address =? NULL); [reflexivity|].
  by apply find_header_untracked with l.
Qed.

Lemma C7_free_null_and_untracked_witness :
  free 0 NULL heap_two = Done tt heap_two /\
  free_with_caution 0 NULL heap_two = Done tt heap_two /\
  free_with_caution 3 5000 heap_two = Done tt heap_two.
Proof.
  destruct C7_free_null_and_untracked as (Hfree & Hnull & Hscan).
  split; [apply Hfree|]. split; [apply Hnull|].
  apply Hscan with [4096; 4328].
  - exact heap_two_chain.
  - intros Hin. apply elem_of_cons in Hin as [Heq|Hin]; [discriminate Heq|].
    apply elem_of_cons in Hin as [Heq|Hin]; [discriminate Heq|].
    by apply elem_of_nil in Hin.
  - simpl. lia.
Defined.

(** * realloc *)

(** C10.  When the successor of the block is free, [realloc] evaluates
    [((header->next)->next)->free] before it merges anything: if that
    free successor is the last block of the list, the call ends in a
    null dereference. *)
Theorem C10_absorb_null_deref (st : heap) (fuel : nat) (address size : Z)
    (hd hn : Header.t) :
  let header := wrap (address - sizeof_Header) in
  (0 < fuel)%nat ->
  address <> NULL ->
  header <> NULL -> in_space header = true ->
  hdrs st !! header = Some hd ->
  Header.next hd <> NULL -> in_space (Header.next hd) = true ->
  hdrs st !! Header.next hd = Some hn ->
  Header.free hn <> 0 ->
  Header.next hn = NULL ->
  realloc fuel address size st = Crash NullDeref.
Proof.
  intros header Hfuel Haddr Hh Hsp Hlk Hnx Hnsp Hnlk Hfree Htail.
  destruct fuel as [|fuel]; [lia|].
  unfold realloc. fold header.
  apply Z.eqb_neq in Haddr as ->.
  rewrite (bind_rd header _ _ st hd) by done.
  rewrite size_diff_not_negative.
  rewrite (bind_rd header _ _ st hd) by done.
  apply Z.eqb_neq in Hnx as Hnx'. rewrite Hnx'.
  rewrite (bind_rd header _ _ st hd) by done.
  rewrite (bind_rd _ _ _ st hn) by done.
  apply Z.eqb_neq in Hfree as ->.
  unfold bind at 1. cbn [absorb].
  rewrite (bind_rd header _ _ st hd) by done.
  rewrite (bind_rd _ _ _ st hn) by done.
  rewrite Htail. reflexivity.
Qed.

Lemma C10_absorb_null_deref_witness :
  realloc 1 4128 48 heap_free_last = Crash NullDeref.
Proof.
  apply (C10_absorb_null_deref heap_free_last 1 4128 48
           (Header.mk 4160 0 32 0) (Header.mk 0 4096 32 1));
    try reflexivity; try lia; vm_compute; congruence.
Defined.

Lemma byte_at_insert m k v a :
  byte_at (<[k := v]> m) a = if decide (k = a) then v else byte_at m a.
Proof. unfold byte_at. rewrite lookup_insert. by destruct (decide (k = a)). Qed.

(** What the loop of [copy_data] does when source and destination lie
    in the address space and do not overlap: the [n] bytes from index [i]
    on are copied, and no other byte changes. *)
Lemma copy_bytes_spec n :
  forall i src dst m,
    0 <= i -> 0 <= src -> 0 <= dst ->
    src + i + Z.of_nat n <= word_modulus ->
    dst + i + Z.of_nat n <= word_modulus ->
    dst + i + Z.of_nat n <= src + i \/ src + i + Z.of_nat n <= dst + i ->
    (forall j, i <= j < i + Z.of_nat n ->
       byte_at (copy_bytes n i src dst m) (dst + j) = byte_at m (src + j)) /\
    (forall a, ~ (dst + i <= a < dst + i + Z.of_nat n) ->
       byte_at (copy_bytes n i src dst m) a = byte_at m a).
Proof.
  induction n as [|n IH]; intros i src dst m Hi Hsrc Hdst Hsb Hdb Hdisj.
  - split; [intros j Hj; lia|done].
  - cbn [copy_bytes].
    rewrite (wrap_small (dst + i)), (wrap_small (src + i))
      by (unfold word_modulus in *; lia).
    destruct (IH (i + 1) src dst
                (<[dst + i := byte_at m (src + i)]> m)) as [IH1 IH2];
      try lia.
    split.
    + intros j Hj. destruct (decide (j = i)) as [->|Hji].
      * rewrite IH2 by lia. rewrite byte_at_insert. by rewrite decide_True.
      * rewrite IH1 by lia. rewrite byte_at_insert.
        rewrite decide_False; [done|lia].
    + intros a Ha. rewrite IH2 by lia. rewrite byte_at_insert.
      rewrite decide_False; [done|lia].
Qed.

(** The fallback of [realloc] over a directory of blocks in use, when
    [sbrk] grants the growth: the loop of [copy_data] runs for the size
    recorded in the old header, the old block is flagged free, and the
    data pointer of the new block is returned. *)
Lemma realloc_fallback_runs st fuel address size l hd :
  let header := wrap (address - sizeof_Header) in
  let tail := last_visited l NULL in
  let target := brk_addr st + to_signed (wrap (clamp size + sizeof_Header)) in
  chain st (first st) l ->
  all_in_use st l ->
  (length l < fuel)%nat ->
  0 <= target <= brk_limit st ->
  0 < brk_addr st -> brk_addr st + sizeof_Header < word_modulus ->
  address <> NULL ->
  header <> NULL -> in_space header = true ->
  hdrs st !! header = Some hd ->
  header <> brk_addr st ->
  Header.next hd <> NULL ->
  exists st',
    realloc_fallback fuel address size header st =
      Done (brk_addr st + sizeof_Header) st' /\
    bytes st' =
      copy_bytes (Z.to_nat (Header.size hd)) 0
        (wrap (header + sizeof_Header)) (brk_addr st + sizeof_Header) (bytes st) /\
    hdrs st' !! header = Some (Header.set_free 1 hd) /\
    hdrs st' !! brk_addr st = Some (Header.mk NULL tail (clamp size) 0).
Proof.
  intros header tail target Hc Hall Hlen Hgr Hb0 Hb1 Haddr Hh Hsp Hlk Hhb Hnx.
  assert (Hbsp : in_space (brk_addr st) = true) by (apply in_space_true; lia).
  assert (Hbn : brk_addr st <> NULL) by (unfold NULL; lia).
  destruct (extend_heap_granted st (clamp size) tail)
    as (st1 & Hrun & Hnew & Hframe & _ & _ & Hbytes); [done..|].
  rewrite wrap_small in Hrun by (unfold sizeof_Header in *; lia).
  unfold realloc_fallback. unfold bind at 1.
  rewrite (malloc_in_use st fuel size l) by done. fold tail. rewrite Hrun.
  replace (brk_addr st + sizeof_Header =? NULL) with false
    by (symmetry; apply Z.eqb_neq; unfold NULL, sizeof_Header; lia).
  replace (wrap (brk_addr st + sizeof_Header - sizeof_Header)) with (brk_addr st)
    by (symmetry; replace (brk_addr st + sizeof_Header - sizeof_Header)
          with (brk_addr st) by lia;
        apply wrap_small; unfold sizeof_Header in *; lia).
  assert (Hlk1 : hdrs st1 !! header = Some hd) by (by rewrite Hframe).
  unfold bind at 1. unfold copy_data.
  rewrite (bind_rd header _ _ st1 hd) by done.
  unfold free. apply Z.eqb_neq in Haddr as ->. fold header.
  unfold bind at 1. rewrite bind_wr by done.
  unfold release_tail.
  rewrite (bind_rd header _ _ _ (Header.set_free 1 hd))
    by (done || by apply hdrs_store_eq).
  cbn [Header.next Header.set_free].
  apply Z.eqb_neq in Hnx as ->.
  eexists. split; [reflexivity|].
  split.
  { cbn [bytes store with_hdrs with_bytes]. rewrite Hbytes.
    by rewrite (wrap_small (brk_addr st + sizeof_Header))
      by (unfold sizeof_Header in *; lia). }
  split.
  - by apply hdrs_store_eq.
  - rewrite hdrs_store_ne by done. exact Hnew.
Qed.

(** C8.  On the fallback path over a directory of blocks in use: when
    [sbrk] grants the growth and the old block lies below the break,
    [realloc] copies the bytes of the old block, as many as the old
    header records, to the data of the new block and no byte elsewhere,
    flags the old block free and returns the data pointer of the new
    block; when [sbrk] denies the growth, [malloc] stores through
    [(void* )-1] and [realloc] never reaches the test of line 214. *)
Theorem C8_realloc_fallback (st : heap) (fuel : nat) (address size : Z)
    (l : list Z) (hd hn : Header.t) :
  let header := wrap (address - sizeof_Header) in
  let target := brk_addr st + to_signed (wrap (clamp size + sizeof_Header)) in
  chain st (first st) l ->
  all_in_use st l ->
  (length l < fuel)%nat ->
  address <> NULL ->
  header <> NULL -> in_space header = true ->
  hdrs st !! header = Some hd ->
  Header.next hd <> NULL -> in_space (Header.next hd) = true ->
  hdrs st !! Header.next hd = Some hn ->
  Header.free hn = 0 ->
  (0 <= target <= brk_limit st ->
   0 <= Header.size hd ->
   header + sizeof_Header + Header.size hd <= brk_addr st ->
   brk_addr st + sizeof_Header + Header.size hd < word_modulus ->
   exists st',
     realloc fuel address size st = Done (brk_addr st + sizeof_Header) st' /\
     (forall j, 0 <= j < Header.size hd ->
        byte_at (bytes st') (brk_addr st + sizeof_Header + j) =
        byte_at (bytes st) (header + sizeof_Header + j)) /\
     (forall a,
        ~ (brk_addr st + sizeof_Header <= a
           < brk_addr st + sizeof_Header + Header.size hd) ->
        byte_at (bytes st') a = byte_at (bytes st) a) /\
     hdrs st' !! header = Some (Header.set_free 1 hd)) /\
  (denied st (wrap (clamp size + sizeof_Header)) ->
   realloc fuel address size st = Crash (BadAccess SBRK_FAILED)).
Proof.
  intros header target Hc Hall Hlen Haddr Hh Hsp Hlk Hnx Hnsp Hnlk Hfree.
  assert (Hrun : realloc fuel address size st =
                 realloc_fallback fuel address size header st).
  { unfold realloc. fold header.
    apply Z.eqb_neq in Haddr as ->.
    rewrite (bind_rd header _ _ st hd) by done.
    rewrite size_diff_not_negative.
    rewrite (bind_rd header _ _ st hd) by done.
    apply Z.eqb_neq in Hnx as Hnx'. rewrite Hnx'.
    rewrite (bind_rd header _ _ st hd) by done.
    rewrite (bind_rd _ _ _ st hn) by done.
    by rewrite Hfree. }
  rewrite Hrun. split.
  - intros Hgr Hsz Hbelow Htop.
    assert (Hh0 : 0 <= header) by (subst header; apply wrap_range).
    destruct (realloc_fallback_runs st fuel address size l hd)
      as (st' & Hfb & Hbytes & Hold & _); try done;
      try (fold header; unfold sizeof_Header, word_modulus in *; lia).
    fold header in Hfb, Hbytes, Hold.
    rewrite wrap_small in Hbytes
      by (unfold sizeof_Header, word_modulus in *; lia).
    destruct (copy_bytes_spec (Z.to_nat (Header.size hd)) 0
                (header + sizeof_Header) (brk_addr st + sizeof_Header)
                (bytes st)) as [Hcopy Hrest];
      try (rewrite ?Z2Nat.id by done;
           unfold sizeof_Header, word_modulus in *; lia).
    rewrite Z2Nat.id in Hcopy, Hrest by done.
    exists st'. split; [done|]. rewrite Hbytes.
    split; [|split; [|done]].
    + intros j Hj. apply Hcopy. lia.
    + intros a Ha. apply Hrest. lia.
  - intros Hden. unfold realloc_fallback, bind at 1.
    rewrite (malloc_in_use st fuel size l) by done.
    by rewrite extend_heap_denied.
Qed.

Lemma C8_realloc_fallback_witness :
  (exists st',
     realloc 3 4128 300 heap_two = Done 4424 st' /\
     (forall j, 0 <= j < 200 ->
        byte_at (bytes st') (4424 + j) = byte_at (bytes heap_two) (4128 + j)) /\
     (forall a, ~ (4424 <= a < 4624) ->
        byte_at (bytes st') a = byte_at (bytes heap_two) a) /\
     hdrs st' !! 4096 = Some (Header.mk 4328 0 200 1)) /\
  realloc 3 4128 300 heap_two_full = Crash (BadAccess SBRK_FAILED).
Proof.
  split.
  - apply (C8_realloc_fallback heap_two 3 4128 300 [4096; 4328]
             (Header.mk 4328 0 200 0) (Header.mk 0 4096 32 0));
      try reflexivity; try discriminate;
      try exact heap_two_chain; try exact heap_two_in_use.
    + simpl. lia.
    + vm_compute. split; congruence.
  - apply (C8_realloc_fallback heap_two_full 3 4128 300 [4096; 4328]
             (Header.mk 4328 0 200 0) (Header.mk 0 4096 32 0));
      try reflexivity; try discriminate;
      try exact heap_two_full_chain; try exact heap_two_full_in_use.
    + simpl. lia.
    + right. vm_compute. reflexivity.
Defined.

(** C2.  [size_diff] is unsigned, so the test of line 189 never holds and
    the call of [split_block] of line 190 is never made.  A request for
    40 bytes on a block of 200 bytes that has a successor goes to the
    fallback: a new block is allocated, the 200 old bytes are copied into
    it and its data pointer is returned.  A request for 16 bytes on the
    last block, of 32 bytes, lowers the break by 16 and records a size of
    16. *)
Theorem C2_realloc_shrink_path_dead :
  (forall size hs, (wrap (size - hs) <? 0) = false) /\
  (exists st',
     realloc 3 4128 40 heap_two = Done 4424 st' /\
     bytes st' = copy_bytes 200 0 4128 4424 (bytes heap_two) /\
     hdrs st' !! 4096 = Some (Header.mk 4328 0 200 1) /\
     hdrs st' !! 4392 = Some (Header.mk 0 4328 40 0)) /\
  (exists st',
     realloc 0 4128 16 heap_one_full = Done 4128 st' /\
     hdrs st' !! 4096 = Some (Header.mk 0 0 16 0) /\
     brk_addr st' = 4144).
Proof.
  split; [intros; apply size_diff_not_negative|].
  split; eexists; (split; [vm_compute; reflexivity|]);
    repeat split; vm_compute; reflexivity.
Qed.

(** C4.  Neither [malloc] nor [realloc] tests what [sbrk] returns.  When
    the growth is denied, [malloc] stores through [(void* )-1] and does
    not return; [realloc] on the last block returns the address it was
    given and records the new size in the header although the heap did
    not grow. *)
Theorem C4_growth_denied_not_reported :
  (forall st fuel size l,
     chain st (first st) l ->
     all_in_use st l ->
     (length l < fuel)%nat ->
     denied st (wrap (clamp size + sizeof_Header)) ->
     malloc fuel size st = Crash (BadAccess SBRK_FAILED)) /\
  (forall st fuel address size hd,
     let header := wrap (address - sizeof_Header) in
     address <> NULL ->
     header <> NULL -> in_space header = true ->
     hdrs st !! header = Some hd ->
     Header.next hd = NULL ->
     denied st (wrap (size - Header.size hd)) ->
     realloc fuel address size st =
     Done address (store header (Header.set_size size) st)).
Proof.
  split.
  - intros st fuel size l Hc Hall Hlen Hden.
    rewrite (malloc_in_use st fuel size l) by done.
    by apply extend_heap_denied.
  - intros st fuel address size hd header Haddr Hh Hsp Hlk Htail Hden.
    unfold realloc. fold header.
    apply Z.eqb_neq in Haddr as ->.
    rewrite (bind_rd header _ _ st hd) by done.
    rewrite size_diff_not_negative.
    rewrite (bind_rd header _ _ st hd) by done.
    rewrite Htail. change (NULL =? NULL) with true. cbv iota.
    unfold bind at 1, sbrk.
    replace ((brk_addr st + to_signed (wrap (size - Header.size hd)) <? 0)
             || (brk_limit st <? brk_addr st + to_signed (wrap (size - Header.size hd))))
      with true.
    + by rewrite bind_wr.
    + symmetry. apply orb_true_iff.
      destruct Hden; [left; by apply Z.ltb_lt|right; by apply Z.ltb_lt].
Qed.

Lemma C4_growth_denied_not_reported_witness :
  malloc 1 32 heap_empty_full = Crash (BadAccess SBRK_FAILED) /\
  malloc 3 32 heap_two_full = Crash (BadAccess SBRK_FAILED) /\
  realloc 0 4128 64 heap_one_full =
    Done 4128 (store 4096 (Header.set_size 64) heap_one_full).
Proof.
  destruct C4_growth_denied_not_reported as (Hmalloc & Hrealloc).
  split; [|split].
  - apply Hmalloc with [].
    + apply chain_end.
    + apply Forall_nil_2.
    + simpl. lia.
    + right. vm_compute. reflexivity.
  - apply Hmalloc with [4096; 4328].
    + exact heap_two_full_chain.
    + exact heap_two_full_in_use.
    + simpl. lia.
    + right. vm_compute. reflexivity.
  - apply (Hrealloc heap_one_full 0%nat 4128 64 (Header.mk 0 0 32 0));
      try reflexivity; try discriminate.
    right. vm_compute. reflexivity.
Defined.

(** * Further properties of the deallocator *)

Lemma bind_Done_inv {A B} (m : M A) (k : A -> M B) st b st2 :
  bind m k st = Done b st2 ->
  exists a st1, m st = Done a st1 /\ k a st1 = Done b st2.
Proof.
  unfold bind. destruct (m st) as [a st1| |]; [eauto|done|done].
Qed.







(** The scan of [free_with_caution] over a directory that holds [header]
    ends in the statements of [free]. *)
Lemma find_header_tracked st inner header l :
  forall curr fuel,
    chain st curr l ->
    header ∈ l ->
    (length l <= fuel)%nat ->
    find_header inner fuel header curr st =
    (wr header (Header.set_free 1) ;; release_tail inner header) st.
Proof.
  induction l as [|q l IH]; intros curr fuel Hc Hin Hlen.
  - by apply elem_of_nil in Hin.
  - apply chain_inv_cons in Hc as (-> & Hq & Hsp & h & Hh & Hc).
    destruct fuel as [|fuel]; [simpl in Hlen; lia|].
    cbn [find_header]. test_false Hq.
    destruct (Z.eqb_spec q header) as [->|Hne]; [done|].
    read_header h.
    apply IH; [done| |simpl in Hlen; lia].
    apply elem_of_cons in Hin as [->|Hin]; done.
Qed.

(** X2.  On the address of a tracked block, [free_with_caution] does
    what [free] does: same outcome, same final state. *)
Theorem X2_free_with_caution_tracked (st : heap) (fuel : nat) (address : Z)
    (l : list Z) :
  chain st (first st) l ->
  wrap (address - sizeof_Header) ∈ l ->
  (length l <= fuel)%nat ->
  free_with_caution fuel address st = free fuel address st.
Proof.
  intros Hc Hin Hlen.
  unfold free_with_caution, free, bind at 1, get_first.
  destruct (address =? NULL); [done|].
  by apply find_header_tracked with l.
Qed.

Lemma X2_free_with_caution_tracked_witness :
  free_with_caution 2 4360 heap_two = free 2 4360 heap_two.
Proof.
  apply (X2_free_with_caution_tracked heap_two 2 4360 [4096; 4328]).
  - exact heap_two_chain.
  - apply elem_of_cons. right. apply elem_of_cons. left. reflexivity.
  - simpl. lia.
Defined.








(** * Sequences of calls *)

Lemma to_signed_small x : 0 <= x < 2 ^ 63 -> to_signed x = x.
Proof.
  intros Hx. unfold to_signed.
  rewrite wrap_small by (unfold word_modulus; lia).
  destruct Hx as [_ Hx]. by apply Z.ltb_lt in Hx as ->.
Qed.

Lemma clamp_bounds size : MIN_BLOCK_SIZE <= clamp size /\ size <= clamp size.
Proof.
  unfold clamp. destruct (Z.ltb_spec size MIN_BLOCK_SIZE); lia.
Qed.

(** The header [extend_heap] builds, whatever the memory held before. *)
Lemma built_header st p last size :
  hdrs (store p (Header.set_free 0)
          (store p (Header.set_size size)
             (store p (Header.set_next NULL)
                (store p (Header.set_prev last) st)))) !! p =
  Some (Header.mk NULL last size 0).
Proof. rewrite !hdrs_store, !decide_True by done. reflexivity. Qed.

(** The state [extend_heap] leaves when [sbrk] grants [incr] more
    bytes. *)
Lemma extend_heap_runs st size last :
  let b := brk_addr st in
  let incr := to_signed (wrap (size + sizeof_Header)) in
  0 <= b + incr <= brk_limit st ->
  b <> NULL -> in_space b = true ->
  extend_heap size last st =
  Done (wrap (b + sizeof_Header))
    ((if first st =? NULL then with_first b else fun s => s)
       (store b (Header.set_free 0)
          (store b (Header.set_size size)
             (store b (Header.set_next NULL)
                (store b (Header.set_prev last) (with_brk (b + incr) st)))))).
Proof.
  intros b incr Hgr Hb Hsp.
  unfold extend_heap, bind at 1, sbrk. fold b incr.
  replace ((b + incr <? 0) || (brk_limit st <? b + incr)) with false
    by (symmetry; apply orb_false_iff; split; apply Z.ltb_ge; lia).
  rewrite !bind_wr by done.
  unfold bind at 1, get_first. cbn [first store with_hdrs with_brk].
  by destruct (first st =? NULL).
Qed.

(** [free] on the block [first] names, when it is the last one. *)
Lemma free_sole_block st fuel address hd :
  let header := wrap (address - sizeof_Header) in
  (0 < fuel)%nat ->
  address <> NULL ->
  header <> NULL -> in_space header = true ->
  hdrs st !! header = Some hd ->
  Header.next hd = NULL ->
  first st = header ->
  header <= brk_limit st ->
  free fuel address st =
  Done tt (with_brk header (with_first NULL (store header (Header.set_free 1) st))).
Proof.
  intros header Hfuel Haddr Hh Hsp Hlk Htail Hfirst Hlim.
  destruct fuel as [|fuel]; [lia|].
  unfold free. test_false Haddr. fold header.
  rewrite bind_wr by done.
  unfold release_tail.
  rewrite (bind_rd header _ _ _ (Header.set_free 1 hd))
    by (done || by apply hdrs_store_eq).
  cbn [Header.next Header.set_free]. rewrite Htail.
  change (NULL =? NULL) with true. cbv iota.
  cbn [trailing_run]. unfold bind, get_first, set_first, brk, ret.
  cbn [first store with_hdrs with_first brk_limit].
  rewrite Hfirst, Z.eqb_refl.
  cbn [first store with_hdrs with_first brk_limit].
  rewrite Hfirst, Z.eqb_refl.
  cbn [first store with_hdrs with_first brk_limit].
  by replace (brk_limit st <? header) with false
    by (symmetry; apply Z.ltb_ge; lia).
Qed.

(** X5.  On an empty directory, [malloc] followed by [free] of the
    pointer it returned leaves the directory empty again and the break
    where it was before the allocation; no data byte is written. *)
Theorem X5_malloc_free_round_trip (st : heap) (fuel : nat) (size : Z) :
  let b := brk_addr st in
  (0 < fuel)%nat ->
  first st = NULL ->
  0 < b -> b + sizeof_Header < word_modulus ->
  0 <= b + to_signed (wrap (clamp size + sizeof_Header)) <= brk_limit st ->
  b <= brk_limit st ->
  exists st',
    malloc_then_free fuel size st = Done (b + sizeof_Header) st' /\
    first st' = NULL /\
    brk_addr st' = b /\
    bytes st' = bytes st /\
    (forall p, disjoint_headers p b -> hdrs st' !! p = hdrs st !! p).
Proof.
  intros b Hfuel Hempty Hb0 Hb1 Hgr Hlim.
  assert (Hbn : b <> NULL) by (unfold NULL; lia).
  assert (Hbsp : in_space b = true) by (apply in_space_true; lia).
  assert (Hc : chain st (first st) []) by (rewrite Hempty; apply chain_end).
  unfold malloc_then_free, bind at 1.
  rewrite (malloc_in_use st fuel size []);
    [|done|apply Forall_nil_2|simpl; lia].
  change (last_visited [] NULL) with NULL.
  rewrite (extend_heap_runs st (clamp size) NULL Hgr Hbn Hbsp). fold b.
  rewrite Hempty. change (NULL =? NULL) with true. cbv iota.
  rewrite (wrap_small (b + sizeof_Header))
    by (unfold sizeof_Header, word_modulus in *; lia).
  set (st1 := with_first b _).
  assert (Hhdr : wrap (b + sizeof_Header - sizeof_Header) = b).
  { replace (b + sizeof_Header - sizeof_Header) with b by lia.
    apply wrap_small. unfold sizeof_Header, word_modulus in *. lia. }
  unfold bind at 1.
  rewrite (free_sole_block st1 fuel (b + sizeof_Header)
             (Header.mk NULL NULL (clamp size) 0));
    rewrite ?Hhdr; try done.
  - eexists. split; [reflexivity|].
    repeat split.
    intros p Hp%disjoint_headers_ne. cbn [hdrs with_brk with_first].
    subst st1. rewrite hdrs_store_ne by done.
    cbn [hdrs with_first]. by rewrite !hdrs_store_ne.
  - unfold NULL, sizeof_Header in *. lia.
  - subst st1. cbn [hdrs with_first]. apply built_header.
Qed.

Lemma X5_malloc_free_round_trip_witness :
  exists st',
    malloc_then_free 1 200 heap_empty = Done 4128 st' /\
    first st' = NULL /\
    brk_addr st' = 4096 /\
    bytes st' = bytes heap_empty /\
    (forall p, disjoint_headers p 4096 -> hdrs st' !! p = hdrs heap_empty !! p).
Proof.
  apply (X5_malloc_free_round_trip heap_empty 1 200);
    try reflexivity; try lia; vm_compute; try split; congruence.
Defined.

Lemma to_signed_wrap_small x : 0 <= x < 2 ^ 63 -> to_signed (wrap x) = x.
Proof.
  intros Hx. rewrite wrap_small by (unfold word_modulus; lia).
  by apply to_signed_small.
Qed.

(** X6.  After two allocations from an empty directory, [free] of the
    first pointer finds the first block with a null [next] (the second
    block was never linked behind it), takes it for the last block,
    empties the directory and lowers the break to the first block: the
    second block, still in use, is left above the break and out of the
    directory. *)
Theorem X6_free_first_drops_second (st : heap) (fuel : nat)
    (size1 size2 : Z) :
  let b := brk_addr st in
  let b2 := b + sizeof_Header + clamp size1 in
  (1 < fuel)%nat ->
  first st = NULL ->
  0 < b ->
  brk_limit st < 2 ^ 63 ->
  b2 + sizeof_Header + clamp size2 <= brk_limit st ->
  exists st',
    two_mallocs_free_first fuel size1 size2 st =
      Done (b + sizeof_Header, b2 + sizeof_Header) st' /\
    first st' = NULL /\
    brk_addr st' = b /\
    hdrs st' !! b2 = Some (Header.mk NULL b (clamp size2) 0).
Proof.
  intros b b2 Hfuel Hempty Hb0 Hlim Hroom.
  destruct (clamp_bounds size1) as [Hc1 _].
  destruct (clamp_bounds size2) as [Hc2 _].
  set (c1 := clamp size1) in *. set (c2 := clamp size2) in *.
  assert (Hi1 : to_signed (wrap (c1 + sizeof_Header)) = c1 + sizeof_Header)
    by (apply to_signed_wrap_small;
        unfold MIN_BLOCK_SIZE, sizeof_Header in *; lia).
  assert (Hi2 : to_signed (wrap (c2 + sizeof_Header)) = c2 + sizeof_Header)
    by (apply to_signed_wrap_small;
        unfold MIN_BLOCK_SIZE, sizeof_Header in *; lia).
  assert (Hbn : b <> NULL) by (unfold NULL; lia).
  assert (Hbsp : in_space b = true)
    by (apply in_space_true;
        unfold b2, MIN_BLOCK_SIZE, sizeof_Header, word_modulus in *; lia).
  assert (Hb2n : b2 <> NULL)
    by (unfold b2, NULL, MIN_BLOCK_SIZE, sizeof_Header in *; lia).
  assert (Hb2sp : in_space b2 = true)
    by (apply in_space_true;
        unfold b2, MIN_BLOCK_SIZE, sizeof_Header, word_modulus in *; lia).
  assert (Hne : b2 <> b) by (unfold b2, MIN_BLOCK_SIZE, sizeof_Header in *; lia).
  (* first allocation *)
  assert (Hgr1 : 0 <= b + to_signed (wrap (c1 + sizeof_Header)) <= brk_limit st)
    by (rewrite Hi1; unfold b2, MIN_BLOCK_SIZE, sizeof_Header in *; lia).
  assert (Hc : chain st (first st) []) by (rewrite Hempty; apply chain_end).
  unfold two_mallocs_free_first, bind at 1.
  rewrite (malloc_in_use st fuel size1 []);
    [|done|apply Forall_nil_2|simpl; lia].
  change (last_visited [] NULL) with NULL. fold c1.
  rewrite (extend_heap_runs st c1 NULL Hgr1 Hbn Hbsp). fold b.
  rewrite Hempty. change (NULL =? NULL) with true. cbv iota.
  rewrite Hi1. replace (b + (c1 + sizeof_Header)) with b2 by (subst b2; lia).
  rewrite (wrap_small (b + sizeof_Header))
    by (unfold b2, MIN_BLOCK_SIZE, sizeof_Header, word_modulus in *; lia).
  set (st1 := with_first b _).
  assert (Hlk1 : hdrs st1 !! b = Some (Header.mk NULL NULL c1 0))
    by (subst st1; cbn [hdrs with_first]; apply built_header).
  (* second allocation *)
  assert (Hc1' : chain st1 (first st1) [b]).
  { apply chain_link with (Header.mk NULL NULL c1 0); try done.
    apply chain_end. }
  assert (Hall : all_in_use st1 [b]).
  { apply Forall_cons_2; [|apply Forall_nil_2]. by eexists. }
  assert (Hgr2 : 0 <= brk_addr st1 + to_signed (wrap (c2 + sizeof_Header))
                 <= brk_limit st1).
  { rewrite Hi2. change (brk_addr st1) with b2.
    change (brk_limit st1) with (brk_limit st).
    unfold b2, MIN_BLOCK_SIZE, sizeof_Header in *. lia. }
  unfold bind at 1.
  rewrite (malloc_in_use st1 fuel size2 [b]); [|done|done|simpl; lia].
  change (last_visited [b] NULL) with b. fold c2.
  rewrite (extend_heap_runs st1 c2 b Hgr2 Hb2n Hb2sp).
  change (brk_addr st1) with b2. change (first st1) with b.
  test_false Hbn. rewrite Hi2.
  rewrite (wrap_small (b2 + sizeof_Header))
    by (unfold b2, MIN_BLOCK_SIZE, sizeof_Header, word_modulus in *; lia).
  set (st2 := store b2 (Header.set_free 0) _).
  assert (Hlk2 : hdrs st2 !! b = Some (Header.mk NULL NULL c1 0))
    by (subst st2; by rewrite !hdrs_store_ne by done).
  assert (Hnew : hdrs st2 !! b2 = Some (Header.mk NULL b c2 0))
    by (subst st2; apply built_header).
  (* the deallocation *)
  assert (Hhdr : wrap (b + sizeof_Header - sizeof_Header) = b).
  { replace (b + sizeof_Header - sizeof_Header) with b by lia.
    apply wrap_small.
    unfold b2, MIN_BLOCK_SIZE, sizeof_Header, word_modulus in *. lia. }
  unfold bind at 1.
  rewrite (free_sole_block st2 fuel (b + sizeof_Header)
             (Header.mk NULL NULL c1 0));
    rewrite ?Hhdr; try done.
  - eexists. split; [reflexivity|]. repeat split.
    cbn [hdrs with_brk with_first]. by rewrite hdrs_store_ne.
  - lia.
  - unfold b2, NULL, MIN_BLOCK_SIZE, sizeof_Header in *. lia.
  - change (brk_limit st2) with (brk_limit st).
    unfold b2, MIN_BLOCK_SIZE, sizeof_Header in *. lia.
Qed.

Lemma X6_free_first_drops_second_witness :
  exists st',
    two_mallocs_free_first 2 200 10 heap_empty = Done (4128, 4360) st' /\
    first st' = NULL /\
    brk_addr st' = 4096 /\
    hdrs st' !! 4328 = Some (Header.mk NULL 4096 32 0).
Proof.
  apply (X6_free_first_drops_second heap_empty 2 200 10);
    try reflexivity; try lia; vm_compute; congruence.
Defined.

(** * Reusing free blocks *)

(** What follows [h] in the list: nothing, or a tracked header. *)
Lemma chain_successor st l h rest hd :
  chain st (first st) (l ++ h :: rest) ->
  hdrs st !! h = Some hd ->
  h <> NULL /\ in_space h = true /\
  ((rest = [] /\ Header.next hd = NULL) \/
   (exists r hn, rest = Header.next hd :: r /\
      Header.next hd <> NULL /\ in_space (Header.next hd) = true /\
      hdrs st !! Header.next hd = Some hn /\
      chain st (Header.next hn) r)).
Proof.
  intros Hc Hlk.
  destruct (chain_app_inv st l _ h rest Hc) as (Hh & Hsp & hd' & Hlk' & Hrest).
  assert (hd' = hd) as -> by congruence.
  split; [done|]. split; [done|].
  destruct rest as [|n r].
  - left. by apply chain_inv_nil in Hrest.
  - right. apply chain_inv_cons in Hrest as (Heq & Hn & Hnsp & hn & Hhn & Hr).
    exists r, hn. rewrite <- Heq. eauto 10.
Qed.

(** The merging loop stops at once on a free block whose successor, if
    any, is in use. *)
Lemma coalesce_stops st fuel h hd :
  (0 < fuel)%nat ->
  h <> NULL -> in_space h = true ->
  hdrs st !! h = Some hd ->
  (Header.next hd = NULL \/
   exists hn, in_space (Header.next hd) = true /\
     hdrs st !! Header.next hd = Some hn /\ Header.free hn = 0) ->
  coalesce fuel h st = Done h st.
Proof.
  intros Hfuel Hh Hsp Hlk [Htail|(hn & Hnsp & Hhn & Hfree)].
  - by apply coalesce_free_tail with hd.
  - destruct fuel as [|fuel]; [lia|]. cbn [coalesce].
    read_header hd. destruct (Header.free hd =? 0); [done|].
    read_header hd. destruct (Z.eqb_spec (Header.next hd) NULL) as [|Hn]; [done|].
    read_header hd. read_header hn. by rewrite Hfree.
Qed.






(** [malloc] walks over the blocks in use at the head of the list. *)
Lemma malloc_reaches st fuel size l h rest :
  chain st (first st) (l ++ h :: rest) ->
  all_in_use st l ->
  (length l < fuel)%nat ->
  malloc fuel size st =
  first_fit fuel (S (fuel - length l - 1)) (clamp size) h
    (last_visited l NULL) st.
Proof.
  intros Hc Hall Hlen.
  unfold malloc, bind at 1, get_first.
  replace fuel with (length l + S (fuel - length l - 1))%nat at 2 by lia.
  rewrite (first_fit_skips_in_use st fuel (clamp size) l h rest)
    by (done || lia).
  reflexivity.
Qed.

(** The header [split_block] builds. *)
Lemma built_split st p h succ nbs :
  hdrs (store p (Header.set_free 1)
          (store p (Header.set_size nbs)
             (store p (Header.set_next succ)
                (store p (Header.set_prev h) st)))) !! p =
  Some (Header.mk succ h nbs 1).
Proof. rewrite !hdrs_store, !decide_True by done. reflexivity. Qed.

(** X8.  First fit with a split.  When the blocks before [h] are in use
    and [h] is free, is followed right after its data by a block in use,
    and exceeds the request by at least 40 bytes, [malloc] returns the
    data pointer of [h], now in use, and links a new free header behind
    the bytes asked for, between [h] and its old successor.  The break
    does not move.  The size recorded for [h] is not reduced, and the
    new block records the excess less 8 bytes. *)
Theorem X8_malloc_splits_first_fit (st : heap) (fuel : nat) (size : Z)
    (l rest : list Z) (h : Z) (hd hn : Header.t) :
  let c := clamp size in
  let nh := h + sizeof_Header + c in
  let succ := Header.next hd in
  chain st (first st) (l ++ h :: rest) ->
  all_in_use st l ->
  (length l < fuel)%nat ->
  hdrs st !! h = Some hd ->
  Header.free hd <> 0 ->
  succ <> NULL ->
  hdrs st !! succ = Some hn ->
  Header.free hn = 0 ->
  succ = h + sizeof_Header + Header.size hd ->
  sizeof_ptr + MIN_BLOCK_SIZE <= Header.size hd - c ->
  exists st',
    malloc fuel size st = Done (h + sizeof_Header) st' /\
    hdrs st' !! h =
      Some (Header.mk nh (Header.prev hd) (Header.size hd) 0) /\
    hdrs st' !! nh =
      Some (Header.mk succ h (Header.size hd - c - sizeof_ptr) 1) /\
    hdrs st' !! succ = Some (Header.set_prev nh hn) /\
    first st' = first st /\ brk_addr st' = brk_addr st.
Proof.
  intros c nh succ Hc Hall Hlen Hlk Hfree Hsn Hhn Hnfree Hadj Hroom.
  destruct (chain_successor st l h rest hd Hc Hlk) as (Hh & Hsp & Hnext).
  destruct Hnext as [[_ Htail]|(r & hn' & _ & _ & Hssp & _ & _)]; [done|].
  fold succ in Hssp.
  destruct (clamp_bounds size) as [Hmin _]. fold c in Hmin.
  apply andb_true_iff in Hsp as Hsp'. destruct Hsp' as [Hh0%Z.leb_le _].
  apply andb_true_iff in Hssp as Hssp'. destruct Hssp' as [_ Hstop%Z.leb_le].
  assert (Hwnh : wrap (h + sizeof_Header + c) = nh)
    by (apply wrap_small; unfold nh, NULL, sizeof_ptr, MIN_BLOCK_SIZE,
          sizeof_Header, word_modulus in *; lia).
  assert (Hwsz : wrap (Header.size hd - c - sizeof_ptr) =
                 Header.size hd - c - sizeof_ptr)
    by (apply wrap_small; unfold NULL, sizeof_ptr, MIN_BLOCK_SIZE,
          sizeof_Header, word_modulus in *; lia).
  assert (Hnh0 : nh <> NULL)
    by (unfold nh, NULL, MIN_BLOCK_SIZE, sizeof_Header in *; lia).
  assert (Hnhsp : in_space nh = true)
    by (apply in_space_true; unfold nh, NULL, sizeof_ptr, MIN_BLOCK_SIZE,
          sizeof_Header, word_modulus in *; lia).
  assert (Hnhh : nh <> h)
    by (unfold nh, MIN_BLOCK_SIZE, sizeof_Header in *; lia).
  assert (Hsh : succ <> h) by (unfold sizeof_ptr, MIN_BLOCK_SIZE,
                                 sizeof_Header in *; lia).
  assert (Hsnh : succ <> nh) by (unfold nh, sizeof_ptr, MIN_BLOCK_SIZE,
                                   sizeof_Header in *; lia).
  pose proof (split_block_runs st h c hd) as Hsplit.
  cbv zeta in Hsplit. rewrite Hwnh, Hwsz in Hsplit. fold succ in Hsplit.
  specialize (Hsplit Hh Hsp Hlk).
  assert (Hfloor : MIN_BLOCK_SIZE <= Header.size hd - c - sizeof_ptr) by lia.
  specialize (Hsplit Hfloor Hnh0 Hnhsp Hnhh Hsn Hssp).
  rewrite (malloc_reaches st fuel size l h rest) by done. fold c.
  cbn [first_fit]. test_false Hh.
  unfold bind at 1.
  rewrite (coalesce_stops st fuel h hd); try done; try lia;
    [|right; exists hn; by fold succ].
  read_header hd. test_false Hfree.
  unfold bind at 1. read_header hd. unfold ret at 1.
  replace (c <=? Header.size hd) with true
    by (symmetry; apply Z.leb_le; unfold sizeof_ptr, MIN_BLOCK_SIZE in *; lia).
  unfold bind at 1. rewrite Hsplit.
  rewrite bind_wr by done.
  rewrite (wrap_small (h + sizeof_Header))
    by (unfold sizeof_ptr, MIN_BLOCK_SIZE, sizeof_Header, word_modulus in *; lia).
  set (s3 := store nh (Header.set_free 1) _).
  assert (H3h : hdrs s3 !! h = Some hd)
    by (subst s3; by rewrite !hdrs_store_ne by done).
  assert (H3n : hdrs s3 !! nh =
                Some (Header.mk succ h (Header.size hd - c - sizeof_ptr) 1))
    by (subst s3; apply built_split).
  assert (H3s : hdrs s3 !! succ = Some hn)
    by (subst s3; by rewrite !hdrs_store_ne by done).
  eexists. split; [reflexivity|].
  split; [|split; [|split; [|done]]].
  - rewrite (hdrs_store_eq h _ _ (Header.set_next nh hd)); [done|].
    rewrite (hdrs_store_eq h _ _ hd); [done|].
    by rewrite hdrs_store_ne.
  - by rewrite !hdrs_store_ne by done.
  - rewrite !(hdrs_store_ne h) by done.
    by rewrite (hdrs_store_eq succ _ _ hn).
Qed.

Lemma X8_malloc_splits_first_fit_witness :
  exists st',
    malloc 1 40 heap_free_first = Done 4128 st' /\
    hdrs st' !! 4096 = Some (Header.mk 4168 0 200 0) /\
    hdrs st' !! 4168 = Some (Header.mk 4328 4096 152 1) /\
    hdrs st' !! 4328 = Some (Header.mk 0 4168 32 0) /\
    first st' = 4096 /\ brk_addr st' = 4392.
Proof.
  apply (X8_malloc_splits_first_fit heap_free_first 1 40 [] [4328] 4096
           (Header.mk 4328 0 200 1) (Header.mk 0 4096 32 0));
    try reflexivity; try discriminate.
  - apply chain_link with (Header.mk 4328 0 200 1); try done.
    apply chain_link with (Header.mk 0 4096 32 0); try done.
    apply chain_end.
  - apply Forall_nil_2.
  - simpl. lia.
Defined.

(** The state [merge_blocks a b] leaves when [a] lies below [b]. *)
Lemma merge_blocks_runs st a b ha hb :
  a < b ->
  a <> NULL -> in_space a = true ->
  b <> NULL -> in_space b = true ->
  hdrs st !! a = Some ha ->
  hdrs st !! b = Some hb ->
  (Header.next hb <> NULL -> in_space (Header.next hb) = true) ->
  let merged :=
    store a (Header.set_next (Header.next hb))
      (store a (Header.set_size
                  (wrap (sizeof_Header + Header.size ha + Header.size hb))) st) in
  merge_blocks a b st =
  Done a (if Header.next hb =? NULL then merged
          else store (Header.next hb) (Header.set_prev a) merged).
Proof.
  intros Hlt Ha Hasp Hb Hbsp Hlka Hlkb Hsucc merged.
  assert (Hab : a <> b) by lia.
  unfold merge_blocks.
  replace (a >? b) with false
    by (symmetry; rewrite Z.gtb_ltb; apply Z.ltb_ge; lia).
  read_header ha. read_header hb.
  rewrite bind_wr by done. read_header hb.
  rewrite bind_wr by done. fold merged.
  assert (Hm : hdrs merged !! b = Some hb)
    by (subst merged; by rewrite !hdrs_store_ne by done).
  read_header hb.
  destruct (Z.eqb_spec (Header.next hb) NULL) as [|Hn]; [done|].
  read_header hb. by rewrite bind_wr by auto.
Qed.

(** X9.  Lazy coalescing.  When the scan of [malloc] reaches two free
    blocks [a] and [b], [b] right after the data of [a] and not followed
    by a free block, it merges them before it tests the fit: a request
    that the merged block exceeds by at least 8 and less than 40 bytes is
    served from [a], which ends up in use with the size of both blocks
    plus one header and with the successor of [b] as its successor; [b]
    is no longer in the list and the break does not move. *)
Theorem X9_malloc_coalesces_pair (st : heap) (fuel : nat) (size : Z)
    (l rest : list Z) (a b : Z) (ha hb : Header.t) :
  let c := clamp size in
  let total := sizeof_Header + Header.size ha + Header.size hb in
  let succ := Header.next hb in
  chain st (first st) (l ++ a :: b :: rest) ->
  all_in_use st l ->
  (length l < fuel)%nat -> (1 < fuel)%nat ->
  hdrs st !! a = Some ha ->
  hdrs st !! b = Some hb ->
  Header.free ha <> 0 ->
  Header.free hb <> 0 ->
  0 <= Header.size ha -> 0 <= Header.size hb ->
  b = a + sizeof_Header + Header.size ha ->
  b + sizeof_Header + Header.size hb <= word_modulus ->
  (forall hc, hdrs st !! succ = Some hc -> Header.free hc = 0) ->
  (succ <> NULL -> disjoint_headers succ a /\ disjoint_headers succ b) ->
  sizeof_ptr <= total - c < sizeof_ptr + MIN_BLOCK_SIZE ->
  exists st',
    malloc fuel size st = Done (a + sizeof_Header) st' /\
    hdrs st' !! a = Some (Header.mk succ (Header.prev ha) total 0) /\
    (succ <> NULL ->
     exists hc, hdrs st !! succ = Some hc /\
                hdrs st' !! succ = Some (Header.set_prev a hc)) /\
    first st' = first st /\ brk_addr st' = brk_addr st /\
    size <= total.
Proof.
  intros c total succ Hc Hall Hlen Hfuel Hlka Hlkb Hfa Hfb Hsa Hsb Hadj Htop
    Hsfree Hsep Hwin.
  destruct (clamp_bounds size) as [Hmin Hle]. fold c in Hmin, Hle.
  destruct (chain_successor st l a (b :: rest) ha Hc Hlka)
    as (Ha & Hasp & [[? _]|(r & hb' & Hrest & Hb & Hbsp & Hlkb' & Hcb)]);
    [done|].
  injection Hrest as Hnb Hr. subst r. rewrite <- Hnb in Hlkb', Hb, Hbsp.
  assert (hb' = hb) as -> by congruence. fold succ in Hcb.
  assert (Hsuccinfo : succ = NULL \/
            (succ <> NULL /\ in_space succ = true /\
             exists hc, hdrs st !! succ = Some hc /\ Header.free hc = 0)).
  { destruct rest as [|n r'].
    - left. by apply chain_inv_nil in Hcb.
    - right. apply chain_inv_cons in Hcb as (_ & Hn & Hnsp & hc & Hhc & _).
      repeat split; try done. exists hc. split; [done|]. by apply Hsfree. }
  apply andb_true_iff in Hasp as Hasp'. destruct Hasp' as [Ha0%Z.leb_le _].
  assert (Hlt : a < b) by (unfold sizeof_Header in *; lia).
  assert (Hwt : wrap total = total)
    by (apply wrap_small; unfold total, NULL, sizeof_Header, word_modulus in *; lia).
  (* the merge *)
  pose proof (merge_blocks_runs st a b ha hb Hlt Ha Hasp Hb Hbsp Hlka Hlkb)
    as Hmerge.
  cbv zeta in Hmerge. fold total succ in Hmerge. rewrite Hwt in Hmerge.
  set (m2 := store a (Header.set_next succ)
               (store a (Header.set_size total) st)) in Hmerge.
  set (sm := if succ =? NULL then m2
             else store succ (Header.set_prev a) m2) in Hmerge.
  assert (Hmerge' : merge_blocks a b st = Done a sm).
  { apply Hmerge. intros Hn. by destruct Hsuccinfo as [|(_ & ? & _)]. }
  assert (Hm2a : hdrs m2 !! a =
            Some (Header.mk succ (Header.prev ha) total (Header.free ha))).
  { subst m2. rewrite (hdrs_store_eq a _ _ (Header.set_size total ha));
      [done|]. by apply hdrs_store_eq. }
  assert (Hsma : hdrs sm !! a =
            Some (Header.mk succ (Header.prev ha) total (Header.free ha))).
  { subst sm. destruct (Z.eqb_spec succ NULL) as [|Hn]; [done|].
    rewrite hdrs_store_ne; [done|].
    apply disjoint_headers_ne. by apply Hsep. }
  assert (Hsms : succ <> NULL ->
            exists hc, hdrs st !! succ = Some hc /\ Header.free hc = 0 /\
                       hdrs sm !! succ = Some (Header.set_prev a hc)).
  { intros Hn. destruct Hsuccinfo as [|(_ & _ & hc & Hhc & Hfc)]; [done|].
    exists hc. split; [done|]. split; [done|].
    subst sm. test_false Hn. apply hdrs_store_eq.
    subst m2. rewrite !hdrs_store_ne; [done|..];
      apply not_eq_sym, disjoint_headers_ne; by apply Hsep. }
  assert (Hfirst : first sm = first st /\ brk_addr sm = brk_addr st)
    by (subst sm m2; by destruct (succ =? NULL)).
  (* the merging loop *)
  assert (Hco : coalesce fuel a st = Done a sm).
  { destruct fuel as [|f]; [lia|].
    assert (Hf : (0 < f)%nat) by lia.
    cbn [coalesce]. read_header ha. test_false Hfa.
    read_header ha. rewrite <- Hnb. test_false Hb.
    read_header ha. rewrite <- Hnb. read_header hb. test_false Hfb.
    read_header ha. rewrite <- Hnb.
    unfold bind at 1. rewrite Hmerge'.
    apply coalesce_stops with
      (Header.mk succ (Header.prev ha) total (Header.free ha));
      try done; try lia.
    cbn [Header.next].
    destruct (Z.eqb_spec succ NULL) as [|Hn]; [by left|right].
    destruct (Hsms Hn) as (hc & _ & Hfc & Hlkc).
    exists (Header.set_prev a hc). repeat split; try done.
    by destruct Hsuccinfo as [|(_ & ? & _)]. }
  (* the fit *)
  rewrite (malloc_reaches st fuel size l a (b :: rest)) by done. fold c.
  cbn [first_fit]. test_false Ha.
  unfold bind at 1. rewrite Hco.
  read_header (Header.mk succ (Header.prev ha) total (Header.free ha)).
  cbn [Header.free]. test_false Hfa.
  unfold bind at 1.
  read_header (Header.mk succ (Header.prev ha) total (Header.free ha)).
  cbn [Header.size]. unfold ret at 1.
  replace (c <=? total) with true
    by (symmetry; apply Z.leb_le; unfold sizeof_ptr in *; lia).
  unfold bind at 1.
  rewrite (split_block_below_floor sm a c
             (Header.mk succ (Header.prev ha) total (Header.free ha)));
    try done.
  2:{ cbn [Header.size]. rewrite wrap_small;
        unfold sizeof_ptr, MIN_BLOCK_SIZE, word_modulus in *; lia. }
  rewrite bind_wr by done.
  rewrite (wrap_small (a + sizeof_Header))
    by (unfold sizeof_Header, word_modulus in *; lia).
  eexists. split; [reflexivity|].
  split; [|split; [|split; [by destruct Hfirst|split; [by destruct Hfirst|]]]].
  - by rewrite (hdrs_store_eq a _ _
                  (Header.mk succ (Header.prev ha) total (Header.free ha))).
  - intros Hn. destruct (Hsms Hn) as (hc & Hhc & _ & Hlkc).
    exists hc. split; [done|]. rewrite hdrs_store_ne; [done|].
    apply not_eq_sym, disjoint_headers_ne. by apply Hsep.
  - unfold sizeof_ptr in *. lia.
Qed.

Lemma X9_malloc_coalesces_pair_witness :
  exists st',
    malloc 2 100 heap_free_pair = Done 4128 st' /\
    hdrs st' !! 4096 = Some (Header.mk 4256 0 128 0) /\
    (4256 <> NULL ->
     exists hc, hdrs heap_free_pair !! 4256 = Some hc /\
                hdrs st' !! 4256 = Some (Header.set_prev 4096 hc)) /\
    first st' = 4096 /\ brk_addr st' = 4320 /\
    100 <= 128.
Proof.
  apply (X9_malloc_coalesces_pair heap_free_pair 2 100 [] [4256] 4096 4160
           (Header.mk 4160 0 32 1) (Header.mk 4256 4096 64 1));
    try reflexivity; try discriminate; try (simpl; lia).
  - apply chain_link with (Header.mk 4160 0 32 1); try done.
    apply chain_link with (Header.mk 4256 4096 64 1); try done.
    apply chain_link with (Header.mk 0 4160 32 0); try done.
    apply chain_end.
  - apply Forall_nil_2.
  - intros hc Hhc. vm_compute in Hhc. by injection Hhc as <-.
  - intros _. split; right; vm_compute; congruence.
  - vm_compute. split; congruence.
Defined.

(** * Further properties of the reallocator *)




(** X11.  Growth in place.  When the block is followed right after its
    data by a free block [nx], itself followed by a block in use, and
    [nx] holds the missing bytes with at least 8 and less than 40 bytes
    to spare, [realloc] merges [nx] into the block and returns the
    address it was given: the block keeps its flag, records the two sizes
    plus one header, which is at least the size asked for, and takes the
    successor of [nx] as its successor.  The break does not move. *)
Theorem X11_realloc_absorbs_successor (st : heap) (fuel : nat)
    (address size : Z) (hd hn hc : Header.t) :
  let header := wrap (address - sizeof_Header) in
  let nx := Header.next hd in
  let c := Header.next hn in
  let delta := size - Header.size hd in
  let total := sizeof_Header + Header.size hd + Header.size hn in
  (0 < fuel)%nat ->
  address <> NULL ->
  header <> NULL -> in_space header = true ->
  hdrs st !! header = Some hd ->
  hdrs st !! nx = Some hn ->
  Header.free hn <> 0 ->
  c <> NULL -> in_space c = true ->
  hdrs st !! c = Some hc ->
  Header.free hc = 0 ->
  0 <= Header.size hd -> 0 <= Header.size hn ->
  nx = header + sizeof_Header + Header.size hd ->
  nx + sizeof_Header + Header.size hn <= word_modulus ->
  disjoint_headers c header -> disjoint_headers c nx ->
  0 <= delta ->
  sizeof_ptr <= Header.size hn - delta < sizeof_ptr + MIN_BLOCK_SIZE ->
  exists st',
    realloc fuel address size st = Done address st' /\
    hdrs st' !! header =
      Some (Header.mk c (Header.prev hd) total (Header.free hd)) /\
    hdrs st' !! c = Some (Header.set_prev header hc) /\
    first st' = first st /\ brk_addr st' = brk_addr st /\
    bytes st' = bytes st /\
    size <= total.
Proof.
  intros header nx c delta total Hfuel Haddr Hh Hsp Hlk Hlkn Hfn Hc Hcsp Hlkc
    Hfc Hsd Hsn Hadj Htop Hdch%disjoint_headers_ne Hdcn%disjoint_headers_ne
    Hgrow Hwin.
  apply andb_true_iff in Hsp as Hsp'. destruct Hsp' as [Hh0%Z.leb_le _].
  assert (Hnx0 : nx <> NULL) by (unfold NULL, sizeof_Header in *; lia).
  assert (Hnxsp : in_space nx = true)
    by (apply in_space_true; unfold sizeof_Header in *; lia).
  assert (Hlt : header < nx) by (unfold sizeof_Header in *; lia).
  assert (Hwd : wrap (size - Header.size hd) = delta)
    by (apply wrap_small; unfold delta, sizeof_ptr, MIN_BLOCK_SIZE,
          sizeof_Header, word_modulus in *; lia).
  assert (Hwt : wrap total = total)
    by (apply wrap_small; unfold total, NULL, sizeof_Header, word_modulus in *;
        lia).
  pose proof (merge_blocks_runs st header nx hd hn Hlt Hh Hsp Hnx0 Hnxsp
                Hlk Hlkn (fun _ => Hcsp)) as Hmerge.
  cbv zeta in Hmerge. fold c total in Hmerge. rewrite Hwt in Hmerge.
  apply Z.eqb_neq in Hc as Hc'. rewrite Hc' in Hmerge.
  destruct fuel as [|f]; [lia|].
  unfold realloc. test_false Haddr. fold header.
  read_header hd. rewrite size_diff_not_negative, Hwd.
  read_header hd. fold nx. test_false Hnx0.
  read_header hd. fold nx. read_header hn. test_false Hfn.
  unfold bind at 1. cbn [absorb].
  read_header hd. fold nx. read_header hn. fold c. read_header hc.
  rewrite Hfc. change (0 =? 0) with true. cbv iota. unfold ret at 1.
  read_header hd. fold nx. read_header hn.
  replace (delta <=? Header.size hn) with true
    by (symmetry; apply Z.leb_le; unfold sizeof_ptr in *; lia).
  read_header hd. fold nx.
  unfold bind at 1.
  rewrite (split_block_below_floor st nx delta hn); try done.
  2:{ rewrite wrap_small;
        unfold sizeof_ptr, MIN_BLOCK_SIZE, word_modulus in *; lia. }
  read_header hd. fold nx.
  unfold bind at 1. rewrite Hmerge.
  eexists. split; [reflexivity|].
  split; [|split; [|repeat split]].
  - rewrite hdrs_store_ne by done.
    rewrite (hdrs_store_eq header _ _ (Header.set_size total hd)); [done|].
    by apply hdrs_store_eq.
  - apply hdrs_store_eq. by rewrite !hdrs_store_ne by done.
  - unfold delta, total, sizeof_ptr, sizeof_Header in *. lia.
Qed.

Lemma X11_realloc_absorbs_successor_witness :
  exists st',
    realloc 1 4128 64 heap_three = Done 4128 st' /\
    hdrs st' !! 4096 = Some (Header.mk 4256 0 128 0) /\
    hdrs st' !! 4256 = Some (Header.mk 0 4096 32 0) /\
    first st' = 4096 /\ brk_addr st' = 4320 /\
    bytes st' = bytes heap_three /\
    64 <= 128.
Proof.
  apply (X11_realloc_absorbs_successor heap_three 1 4128 64
           (Header.mk 4160 0 32 0) (Header.mk 4256 4096 64 1)
           (Header.mk 0 4160 32 0));
    try reflexivity; try discriminate; try lia;
    try (right; vm_compute; congruence);
    vm_compute; try split; congruence.
Defined.



(** Whenever it returns, [merge_blocks] returns the lower address. *)
Lemma merge_blocks_returns_lower st p q r st' :
  merge_blocks p q st = Done r st' -> r = Z.min p q.
Proof.
  unfold merge_blocks. rewrite !Z.gtb_ltb. intros Hrun.
  assert (Hmin : (if q <? p then q else p) = Z.min p q)
    by (destruct (Z.ltb_spec q p); lia).
  rewrite Hmin in Hrun.
  apply bind_Done_inv in Hrun as (s1 & st1 & _ & Hrun).
  apply bind_Done_inv in Hrun as (s2 & st2 & _ & Hrun).
  apply bind_Done_inv in Hrun as (u1 & st3 & _ & Hrun).
  apply bind_Done_inv in Hrun as (n & st4 & _ & Hrun).
  apply bind_Done_inv in Hrun as (u2 & st5 & _ & Hrun).
  apply bind_Done_inv in Hrun as (n' & st6 & _ & Hrun).
  destruct (n' =? NULL); [by injection Hrun as <-|].
  apply bind_Done_inv in Hrun as (n'' & st7 & _ & Hrun).
  apply bind_Done_inv in Hrun as (u3 & st8 & _ & Hrun).
  by injection Hrun as <-.
Qed.

(** X13.  [merge_blocks] does not depend on the order of its arguments:
    of two headers present in memory, the one at the lower address
    absorbs the other, whichever is passed first, and it is the one
    returned. *)
Theorem X13_merge_blocks_order (st : heap) (p q : Z) (hp hq : Header.t) :
  p <> NULL -> in_space p = true ->
  q <> NULL -> in_space q = true ->
  hdrs st !! p = Some hp ->
  hdrs st !! q = Some hq ->
  merge_blocks p q st = merge_blocks q p st /\
  (forall r st', merge_blocks p q st = Done r st' -> r = Z.min p q).
Proof.
  intros Hp Hpsp Hq Hqsp Hlkp Hlkq.
  split; [|intros r st'; apply merge_blocks_returns_lower].
  assert (Hsum : sizeof_Header + Header.size hq + Header.size hp =
                 sizeof_Header + Header.size hp + Header.size hq) by lia.
  unfold merge_blocks. rewrite !Z.gtb_ltb.
  destruct (Z.ltb_spec q p) as [Hqp|Hpq];
    destruct (Z.ltb_spec p q) as [Hpq'|Hqp']; try lia.
  - read_header hp. read_header hq. read_header hq. read_header hp.
    by rewrite Hsum.
  - read_header hp. read_header hq. read_header hq. read_header hp.
    by rewrite Hsum.
  - assert (p = q) as -> by lia. done.
Qed.

Lemma X13_merge_blocks_order_witness :
  merge_blocks 4160 4096 heap_free_pair = merge_blocks 4096 4160 heap_free_pair /\
  (forall r st', merge_blocks 4160 4096 heap_free_pair = Done r st' ->
     r = Z.min 4160 4096).
Proof.
  apply (X13_merge_blocks_order heap_free_pair 4160 4096
           (Header.mk 4256 4096 64 1) (Header.mk 4160 0 32 1));
    try reflexivity; discriminate.
Defined.
